(** * ctrader-live-feed: frame extraction, payload dispatch, reconnection and
      token refresh of [ctrader-live-feed.mjs], as a shallow embedding.

    The file follows the source top-down:
    - [Buffers]: the few operations of Node's [Buffer] that the client uses;
    - [Framing]: the length-prefixed framing of [send] and the [while] loop of
      the ['data'] listener, generic in what is done with each frame;
    - [Refresh]: [refreshAccessToken], the [.env] rewrite and the in-memory
      tokens;
    - [Feed]: the emitter callbacks, the payload [switch], [connect] and the
      ['close'] listener, as transitions of one state driven by events. *)

From Stdlib Require Import String Ascii List Arith NArith Lia Bool.
From Stdlib.Strings Require Import Byte.
From Stdlib Require Import DecimalString.
From Equations Require Import Equations.
Import ListNotations.

Open Scope N_scope.

(** ** Outcome of a listener: it returns, or an exception escapes it.
    Nothing in the source catches exceptions, so an escaping exception ends
    the Node process. *)

Inductive result (A : Type) : Type :=
| Ok (a : A)
| Uncaught.
Arguments Ok {A} a.
Arguments Uncaught {A}.

Definition bind {A B : Type} (r : result A) (k : A -> result B) : result B :=
  match r with
  | Ok a => k a
  | Uncaught => Uncaught
  end.

Notation "x <- r ;; k" := (bind r (fun x => k))
  (at level 61, r at next level, right associativity).
Notation "' p <- r ;; k" := (bind r (fun x => let 'p := x in k))
  (at level 61, p pattern, r at next level, right associativity).

(** ** Node buffers *)

Module Buffers.

(** A [Buffer] is a sequence of octets. *)
Definition Buffer : Type := list byte.

(** [buf.length] *)
Definition buf_length (b : Buffer) : N := N.of_nat (length b).

(** [Buffer.concat([a, b])] *)
Definition concat2 (a b : Buffer) : Buffer := a ++ b.

(** [buf.slice(start, stop)] for non-negative indices: both ends are
    clamped to the buffer, and an empty buffer results when
    [stop <= start]. *)
Definition slice (b : Buffer) (start stop : N) : Buffer :=
  firstn (N.to_nat (stop - start)) (skipn (N.to_nat start) b).

(** [buf.slice(start)] *)
Definition slice_from (b : Buffer) (start : N) : Buffer :=
  skipn (N.to_nat start) b.

(** [buf.readUInt32BE(0)]: the first four octets, most significant first.
    Node raises a range error on a buffer of fewer than four octets. *)
Definition readUInt32BE (b : Buffer) : option N :=
  match b with
  | b0 :: b1 :: b2 :: b3 :: _ =>
      Some (Byte.to_N b0 * 2 ^ 24 + Byte.to_N b1 * 2 ^ 16
            + Byte.to_N b2 * 2 ^ 8 + Byte.to_N b3)
  | _ => None
  end.

(** The octet holding the low eight bits of [n]. *)
Definition octet (n : N) : byte :=
  match Byte.of_N (n mod 256) with
  | Some b => b
  | None => x00
  end.

(** [Buffer.alloc(4)] followed by [header.writeUInt32BE(value, 0)].
    Node raises a range error when [value] does not fit 32 bits. *)
Definition writeUInt32BE (value : N) : option Buffer :=
  if value <? 2 ^ 32
  then Some [octet (N.shiftr value 24); octet (N.shiftr value 16);
             octet (N.shiftr value 8); octet value]
  else None.

End Buffers.
Import Buffers.

(** ** Framing *)

Module Framing.

(** What [send] writes to the socket for an encoded envelope [wrapBuf]:
    the four-octet header, then the envelope. *)
Definition frame_bytes (wrapBuf : Buffer) : option Buffer :=
  match writeUInt32BE (buf_length wrapBuf) with
  | Some header => Some (header ++ wrapBuf)
  | None => None
  end.

(** One test of the loop of the ['data'] listener, up to the two slices:
    [None] when the loop is left (fewer than four octets, or the [break]),
    otherwise the frame body [msgBuf] and the new [recvBuffer]. *)
Definition next_frame (recvBuffer : Buffer) : option (Buffer * Buffer) :=
  if buf_length recvBuffer <? 4 then None
  else
    match readUInt32BE recvBuffer with
    | None => None
    | Some len =>
        if buf_length recvBuffer <? 4 + len then None
        else Some (slice recvBuffer 4 (4 + len),
                   slice_from recvBuffer (4 + len))
    end.

(** When the loop goes on, the test has read a length [len] that fits. *)
Lemma next_frame_inv recvBuffer msgBuf rest :
  next_frame recvBuffer = Some (msgBuf, rest) ->
  exists len,
    readUInt32BE recvBuffer = Some len /\
    4 + len <= buf_length recvBuffer /\
    msgBuf = slice recvBuffer 4 (4 + len) /\
    rest = slice_from recvBuffer (4 + len).
Proof.
  unfold next_frame.
  destruct (N.ltb_spec (buf_length recvBuffer) 4) as [|H4]; [discriminate|].
  destruct (readUInt32BE recvBuffer) as [len|]; [|discriminate].
  destruct (N.ltb_spec (buf_length recvBuffer) (4 + len)) as [|Hl];
    [discriminate|].
  intros [= <- <-]. exists len. repeat split; trivial.
Qed.

(** The measure of the loop: the new [recvBuffer] is shorter. *)
Lemma next_frame_shrinks recvBuffer msgBuf rest :
  next_frame recvBuffer = Some (msgBuf, rest) ->
  (length rest < length recvBuffer)%nat.
Proof.
  intros H. apply next_frame_inv in H as (len & _ & Hl & _ & ->).
  unfold slice_from, buf_length in *. rewrite length_skipn. lia.
Qed.

(** Keeps the equation of a case analysis at hand for the termination
    argument of the loop. *)
Definition inspect {A : Type} (a : A) : {b : A | a = b} :=
  exist _ a eq_refl.

Section Loop.

(** The loop is generic in the state [S] that the body of the loop
    works on and in what the body does with a frame body
    ([ProtoMessage.decode] and the [switch] in the source). *)
Variable S : Type.
Variable on_frame : S -> Buffer -> result S.

(** [while (recvBuffer.length >= 4) { ... }] *)
Equations? data_loop (recvBuffer : Buffer) (s : S) : result (Buffer * S)
  by wf (length recvBuffer) lt :=
  data_loop recvBuffer s with inspect (next_frame recvBuffer) := {
    | exist _ None _ => Ok (recvBuffer, s)
    | exist _ (Some (msgBuf, rest)) Hnext with on_frame s msgBuf := {
        | Uncaught => Uncaught
        | Ok s' => data_loop rest s' } }.
Proof. eapply next_frame_shrinks; eassumption. Qed.

(** The ['data'] listener: append the chunk, then run the loop. *)
Definition on_data (st : Buffer * S) (chunk : Buffer) : result (Buffer * S) :=
  let '(recvBuffer, s) := st in
  data_loop (concat2 recvBuffer chunk) s.

(** Successive ['data'] events on one connection. *)
Fixpoint feed (st : Buffer * S) (chunks : list Buffer) : result (Buffer * S) :=
  match chunks with
  | [] => Ok st
  | chunk :: more => st' <- on_data st chunk ;; feed st' more
  end.

End Loop.

Arguments data_loop {S} on_frame recvBuffer s.
Arguments on_data {S} on_frame st chunk.
Arguments feed {S} on_frame st chunks.

(** A body of the loop that only keeps the frame bodies, in the order the
    loop cuts them. *)
Definition record (frames : list Buffer) (msgBuf : Buffer)
  : result (list Buffer) :=
  Ok (frames ++ [msgBuf]).

End Framing.

(** ** What the program prints *)

Inductive TypeName : Type :=
| VersionReq | AppAuthReq | AccountAuthReq | SymbolsListReq | SubscribeSpotsReq.

Record Symbol : Type := { symbolId : N; symbolName : string }.
Record SymbolsListRes : Type := { symbol : list Symbol }.
Record SpotEvent : Type :=
  { spot_symbolName : option string; spot_symbolId : N;
    bid : option N; ask : option N }.
Record ErrorRes : Type := { errorCode : string; description : option string }.

(** One constructor for each [console.log], [console.warn] and
    [console.error] of the source, with the values it interpolates. *)
Inductive ConsoleLine : Type :=
| Token_refresh_failed (status : N) (text : string)
| Token_refreshed_successfully
| Sent_line (typeName : TypeName)
| Version_handshake_complete
| App_authenticated
| Account_authenticated
| Received_symbols (n : nat)
| Symbols_csv_written
| Symbol_not_found (sym : string)
| Spot_line (spot : SpotEvent)
| API_Error (err : ErrorRes)
| Connected
| Unhandled_payload (pt : N)
| Socket_error (message : string)
| Closed_reconnecting_in_5s.

(** ** Token refresh *)

Module Refresh.

(** The module-level variables read from [process.env]; a variable that is
    not set is [undefined]. *)
Record Vars : Type :=
  { CTRADER_CLIENT_ID : option string;
    CTRADER_CLIENT_SECRET : option string;
    CTRADER_ACCESS_TOKEN : option string;
    CTRADER_REFRESH_TOKEN : option string;
    CTRADER_ACCOUNT_ID : option string }.

(** The fields of the token endpoint's JSON answer that are read. *)
Record TokenData : Type :=
  { access_token : option string; refresh_token : option string }.

(** An HTTP response: [res.ok], [res.status], [res.text()] and
    [res.json()], which raises when the body is not JSON. *)
Record Response : Type :=
  { ok : bool; status : N; text : string; json : option TokenData }.

(** The form posted to the token endpoint. *)
Record TokenRequest : Type :=
  { grant_type : string;
    client_id : option string;
    client_secret : option string;
    posted_refresh_token : option string }.

(** Everything [refreshAccessToken] reads or writes: the variables, the
    [.env] file ([None] when it does not exist), the answers the token
    endpoint gives to the next requests (a missing answer is a network
    failure: [fetch] rejects), the requests made so far and the console. *)
Record World : Type :=
  { vars : Vars;
    env_file : option string;
    authority : list Response;
    posted : list TokenRequest;
    console : list ConsoleLine }.

(** How an [async] function or the process ends. *)
Inductive Completion : Type :=
| Returned
| Exited (code : N)
| Rejected.

Definition newline : string := String (ascii_of_nat 10) EmptyString.

(** [s.split('\n')] *)
Fixpoint split_lines (s : string) : list string :=
  match s with
  | EmptyString => [EmptyString]
  | String c r =>
      if Ascii.eqb c (ascii_of_nat 10) then EmptyString :: split_lines r
      else match split_lines r with
           | l :: ls => String c l :: ls
           | [] => [String c EmptyString]
           end
  end.

(** An element of an array as [join] prints it: [undefined] is empty. *)
Definition printed (e : option string) : string :=
  match e with
  | Some l => l
  | None => EmptyString
  end.

(** [entries.join('\n')] *)
Definition join_lines (entries : list (option string)) : string :=
  String.concat newline (map printed entries).

(** Truthiness of a value that is a string or [undefined]. *)
Definition truthy (v : option string) : bool :=
  match v with
  | Some EmptyString => false
  | Some _ => true
  | None => false
  end.

(** [const update = (k,v)=> v?`${k}=${v}`: lines.find(l=>l.startsWith(k))] *)
Definition update (lines : list string) (k : string) (v : option string)
  : option string :=
  if truthy v then Some (k ++ "=" ++ printed v)%string
  else find (fun l => prefix k l) lines.

Definition say (line : ConsoleLine) (w : World) : World :=
  {| vars := vars w; env_file := env_file w; authority := authority w;
     posted := posted w; console := console w ++ [line] |}.

(** [fetch(CTP_OAUTH_ENDPOINT, ...)]: the request is recorded and the
    endpoint's next answer, if any, is taken. *)
Definition fetch (w : World) : option Response * World :=
  let req := {| grant_type := "refresh_token";
                client_id := CTRADER_CLIENT_ID (vars w);
                client_secret := CTRADER_CLIENT_SECRET (vars w);
                posted_refresh_token := CTRADER_REFRESH_TOKEN (vars w) |} in
  let w' answers :=
    {| vars := vars w; env_file := env_file w; authority := answers;
       posted := posted w ++ [req]; console := console w |} in
  match authority w with
  | [] => (None, w' [])
  | res :: answers => (Some res, w' answers)
  end.

(** [fs.writeFileSync(envPath, newEnv, 'utf8')] *)
Definition writeFileSync (newEnv : string) (w : World) : World :=
  {| vars := vars w; env_file := Some newEnv; authority := authority w;
     posted := posted w; console := console w |}.

(** [CTRADER_ACCESS_TOKEN = data.access_token] *)
Definition set_access_token (v : option string) (w : World) : World :=
  {| vars := {| CTRADER_CLIENT_ID := CTRADER_CLIENT_ID (vars w);
                CTRADER_CLIENT_SECRET := CTRADER_CLIENT_SECRET (vars w);
                CTRADER_ACCESS_TOKEN := v;
                CTRADER_REFRESH_TOKEN := CTRADER_REFRESH_TOKEN (vars w);
                CTRADER_ACCOUNT_ID := CTRADER_ACCOUNT_ID (vars w) |};
     env_file := env_file w; authority := authority w;
     posted := posted w; console := console w |}.

(** [async function refreshAccessToken()] *)
Definition refreshAccessToken (w : World) : Completion * World :=
  match fetch w with
  | (None, w1) => (Rejected, w1)
  | (Some res, w1) =>
      if negb (ok res)
      then (Exited 1, say (Token_refresh_failed (status res) (text res)) w1)
      else
        match json res with
        | None => (Rejected, w1)
        | Some data =>
            let w2 := say Token_refreshed_successfully w1 in
            match env_file w2 with
            | None => (Rejected, w2)
            | Some content =>
                let lines := split_lines content in
                let newEnv :=
                  join_lines
                    [ update lines "CTRADER_CLIENT_ID"
                             (CTRADER_CLIENT_ID (vars w2));
                      update lines "CTRADER_CLIENT_SECRET"
                             (CTRADER_CLIENT_SECRET (vars w2));
                      update lines "CTRADER_ACCESS_TOKEN"
                             (access_token data);
                      update lines "CTRADER_REFRESH_TOKEN"
                             (refresh_token data);
                      update lines "CTRADER_ACCOUNT_ID"
                             (CTRADER_ACCOUNT_ID (vars w2)) ] in
                let w3 := writeFileSync newEnv w2 in
                (Returned, set_access_token (access_token data) w3)
            end
        end
  end.

End Refresh.

(** ** The tick stream *)

Module Feed.
Import Refresh.

(** The envelope [ProtoMessage], as far as it is read. *)
Record ProtoMessage : Type := { payloadType : N; payload : Buffer }.

(** The values of [PayloadTypeEnum] that the [switch] compares with. *)
Record PayloadTypeValues : Type :=
  { PROTO_OA_VERSION_RES : N;
    PROTO_OA_APPLICATION_AUTH_RES : N;
    PROTO_OA_ACCOUNT_AUTH_RES : N;
    PROTO_OA_SYMBOLS_LIST_RES : N;
    PROTO_OA_SPOT_EVENT : N;
    PROTO_OA_ERROR_RES : N }.

(** What the program takes from [protobufjs], from the [.proto] files and
    from the JavaScript library. A decoder that raises is [None]. *)
Record Externals : Type :=
  { values : PayloadTypeValues;
    ProtoMessage_decode : Buffer -> option ProtoMessage;
    SymbolsListRes_decode : Buffer -> option SymbolsListRes;
    SpotEvent_decode : Buffer -> option SpotEvent;
    ErrorRes_decode : Buffer -> option ErrorRes;
    toUpperCase : string -> string;
    trim : string -> string }.

(** The payload handed to [send]. [parseInt] is left unevaluated: the
    account identifier is kept as the text it is read from. *)
Inductive Fields : Type :=
| version_fields (major minor patch : N)
| app_auth_fields (clientId clientSecret : option string)
| account_auth_fields (ctidTraderAccountId accessToken : option string)
| symbols_list_fields (ctidTraderAccountId : option string)
| subscribe_spots_fields (ctidTraderAccountId : option string)
                         (symbolIds : list N).

(** What can be observed of a run, oldest first. [Recv] is a ghost entry:
    it records the payload type of an envelope at the moment it is decoded,
    before the [switch]. *)
Inductive Obs : Type :=
| Recv (pt : N)
| Sent (sock : nat) (typeName : TypeName) (fields : Fields)
| Console (line : ConsoleLine)
| Wrote_symbols_csv (rows : list Symbol)
| Asked_symbol.

(** The state that the callbacks and the listeners share, apart from
    [recvBuffer]: the module-level variables and files ([world]), the
    socket [sock] currently refers to (sockets are numbered in the order
    [connect] creates them), the symbol lists of the questions not yet
    answered, the number of [setTimeout(connect, 5000)] not yet fired, and
    the observations so far. *)
Record Client : Type :=
  { world : World;
    sock : nat;
    questions : list (list Symbol);
    timers : nat;
    trace : list Obs }.

Definition observe (o : Obs) (c : Client) : Client :=
  {| world := world c; sock := sock c; questions := questions c;
     timers := timers c; trace := trace c ++ [o] |}.

(** [send(sock, typeName, payload)]: the frame is written to the socket
    [sock] refers to now, then [→ Sent typeName] is printed. *)
Definition send (typeName : TypeName) (fields : Fields) (c : Client) : Client :=
  observe (Console (Sent_line typeName))
          (observe (Sent (sock c) typeName fields) c).

(** The six topics of the emitter with the argument each is emitted with. *)
Inductive Emit : Type :=
| version
| auth_app
| auth_account
| symbols_list (res : SymbolsListRes)
| spot (ev : SpotEvent)
| error_res (err : ErrorRes).

(** [emitter.emit(t, arg)]: the callback registered for the topic. The
    callback of [symbols_list] runs up to its [await]: the question is
    left open. *)
Definition emit (e : Emit) (c : Client) : Client :=
  let v := vars (world c) in
  match e with
  | version =>
      send AppAuthReq
           (app_auth_fields (CTRADER_CLIENT_ID v) (CTRADER_CLIENT_SECRET v))
           (observe (Console Version_handshake_complete) c)
  | auth_app =>
      send AccountAuthReq
           (account_auth_fields (CTRADER_ACCOUNT_ID v) (CTRADER_ACCESS_TOKEN v))
           (observe (Console App_authenticated) c)
  | auth_account =>
      send SymbolsListReq
           (symbols_list_fields (CTRADER_ACCOUNT_ID v))
           (observe (Console Account_authenticated) c)
  | symbols_list res =>
      let all := symbol res in
      let c1 := observe (Console (Received_symbols (length all))) c in
      let c2 := observe (Wrote_symbols_csv all) c1 in
      let c3 := observe (Console Symbols_csv_written) c2 in
      let c4 := observe Asked_symbol c3 in
      {| world := world c4; sock := sock c4;
         questions := questions c4 ++ [all];
         timers := timers c4; trace := trace c4 |}
  | spot ev => observe (Console (Spot_line ev)) c
  | error_res err => observe (Console (API_Error err)) c
  end.

Section WithExternals.

Variable ext : Externals.

(** The rest of the [symbols_list] callback, once the question is
    answered with the line [a]. *)
Definition answered (all : list Symbol) (a : string) (c : Client) : Client :=
  let sym := toUpperCase ext (trim ext a) in
  match find (fun s => String.eqb (toUpperCase ext (symbolName s)) sym) all with
  | None => observe (Console (Symbol_not_found sym)) c
  | Some m =>
      send SubscribeSpotsReq
           (subscribe_spots_fields (CTRADER_ACCOUNT_ID (vars (world c)))
                                   [symbolId m])
           c
  end.

(** [switch(pt) { ... }]: the first [case] whose value is [pt]. *)
Definition dispatch (c : Client) (wrap : ProtoMessage) : result Client :=
  let pt := payloadType wrap in
  let V := values ext in
  if pt =? PROTO_OA_VERSION_RES V then Ok (emit version c)
  else if pt =? PROTO_OA_APPLICATION_AUTH_RES V then Ok (emit auth_app c)
  else if pt =? PROTO_OA_ACCOUNT_AUTH_RES V then Ok (emit auth_account c)
  else if pt =? PROTO_OA_SYMBOLS_LIST_RES V then
    match SymbolsListRes_decode ext (payload wrap) with
    | Some res => Ok (emit (symbols_list res) c)
    | None => Uncaught
    end
  else if pt =? PROTO_OA_SPOT_EVENT V then
    match SpotEvent_decode ext (payload wrap) with
    | Some ev => Ok (emit (spot ev) c)
    | None => Uncaught
    end
  else if pt =? PROTO_OA_ERROR_RES V then
    match ErrorRes_decode ext (payload wrap) with
    | Some err => Ok (emit (error_res err) c)
    | None => Uncaught
    end
  else Ok (observe (Console (Unhandled_payload pt)) c).

(** The body of the loop after the two slices: decode the envelope,
    then the [switch]. *)
Definition on_frame (c : Client) (msgBuf : Buffer) : result Client :=
  match ProtoMessage_decode ext msgBuf with
  | None => Uncaught
  | Some wrap => dispatch (observe (Recv (payloadType wrap)) c) wrap
  end.

(** [const connect = ()=>{ sock = tls.connect(...); ... }]: a new socket
    with its listeners; nothing else is assigned. *)
Definition connect (st : Buffer * Client) : Buffer * Client :=
  let '(recvBuffer, c) := st in
  (recvBuffer,
   {| world := world c; sock := S (sock c); questions := questions c;
      timers := timers c; trace := trace c |}).

(** What happens to the running program. *)
Inductive Event : Type :=
| secureConnect                  (* the callback of [tls.connect] *)
| data (chunk : Buffer)          (* ['data'] on a socket *)
| error (message : string)       (* ['error'] on a socket *)
| close                          (* ['close'] on a socket *)
| timeout                        (* a [setTimeout(connect, 5000)] fires *)
| answer (i : nat) (a : string). (* question number [i] is answered *)

Definition step (st : Buffer * Client) (e : Event) : result (Buffer * Client) :=
  let '(recvBuffer, c) := st in
  match e with
  | secureConnect =>
      Ok (recvBuffer,
          send VersionReq (version_fields 2 0 0)
               (observe (Console Connected) c))
  | data chunk => Framing.on_data on_frame st chunk
  | error message =>
      Ok (recvBuffer, observe (Console (Socket_error message)) c)
  | close =>
      let c1 := observe (Console Closed_reconnecting_in_5s) c in
      Ok (recvBuffer,
          {| world := world c1; sock := sock c1; questions := questions c1;
             timers := S (timers c1); trace := trace c1 |})
  | timeout =>
      match timers c with
      | O => Ok st
      | S n =>
          Ok (connect (recvBuffer,
                       {| world := world c; sock := sock c;
                          questions := questions c;
                          timers := n; trace := trace c |}))
      end
  | answer i a =>
      match nth_error (questions c) i with
      | None => Ok st
      | Some all =>
          Ok (recvBuffer,
              answered all a
                {| world := world c; sock := sock c;
                   questions := firstn i (questions c)
                                ++ skipn (S i) (questions c);
                   timers := timers c; trace := trace c |})
      end
  end.

Fixpoint run (st : Buffer * Client) (events : list Event)
  : result (Buffer * Client) :=
  match events with
  | [] => Ok st
  | e :: more => st' <- step st e ;; run st' more
  end.

(** [startTickStream()] up to and including its call of [connect]:
    [let sock = null; let recvBuffer = Buffer.alloc(0); ... connect()].
    The first socket is number 0. *)
Definition startTickStream (w : World) : Buffer * Client :=
  ([], {| world := w; sock := 0; questions := []; timers := 0;
          trace := [] |}).

End WithExternals.

End Feed.

(** * Properties *)

Lemma bind_assoc {A B C : Type} (r : result A)
      (f : A -> result B) (g : B -> result C) :
  bind (bind r f) g = bind r (fun a => bind (f a) g).
Proof. destruct r; reflexivity. Qed.

(** ** The header written by [send] is the header read by the loop *)

Module BufferFacts.

Lemma to_N_octet n : Byte.to_N (octet n) = n mod 256.
Proof.
  unfold octet. destruct (Byte.of_N (n mod 256)) as [b|] eqn:E.
  - now apply Byte.to_of_N.
  - apply Byte.of_N_None_iff in E.
    pose proof (N.mod_upper_bound n 256). lia.
Qed.

Lemma four_octets n :
  n < 2 ^ 32 ->
  (N.shiftr n 24 mod 256) * 2 ^ 24 + (N.shiftr n 16 mod 256) * 2 ^ 16
  + (N.shiftr n 8 mod 256) * 2 ^ 8 + n mod 256 = n.
Proof.
  intros Hn. rewrite !N.shiftr_div_pow2.
  change (2 ^ 32) with 4294967296 in Hn.
  change (2 ^ 24) with 16777216. change (2 ^ 16) with 65536.
  change (2 ^ 8) with 256.
  pose proof (N.div_mod n 256 ltac:(lia)) as E0.
  pose proof (N.mod_upper_bound n 256 ltac:(lia)).
  pose proof (N.div_mod (n / 256) 256 ltac:(lia)) as E1.
  pose proof (N.mod_upper_bound (n / 256) 256 ltac:(lia)).
  pose proof (N.div_mod (n / 65536) 256 ltac:(lia)) as E2.
  pose proof (N.mod_upper_bound (n / 65536) 256 ltac:(lia)).
  rewrite N.Div0.div_div in E1, E2.
  change (256 * 256) with 65536 in E1.
  change (65536 * 256) with 16777216 in E2.
  assert (n / 16777216 < 256)
    by (apply N.Div0.div_lt_upper_bound; lia).
  rewrite (N.mod_small (n / 16777216) 256) by assumption.
  lia.
Qed.

Lemma read_written n header rest :
  writeUInt32BE n = Some header ->
  readUInt32BE (header ++ rest) = Some n /\ length header = 4%nat.
Proof.
  unfold writeUInt32BE.
  destruct (N.ltb_spec n (2 ^ 32)) as [Hn|]; [|discriminate].
  intros H.
  assert (header = [octet (N.shiftr n 24); octet (N.shiftr n 16);
                    octet (N.shiftr n 8); octet n]) as -> by congruence.
  split; [|reflexivity].
  unfold readUInt32BE, app. rewrite !to_N_octet.
  now rewrite four_octets.
Qed.

Lemma readUInt32BE_app buf chunk :
  4 <= buf_length buf ->
  readUInt32BE (buf ++ chunk) = readUInt32BE buf.
Proof.
  unfold buf_length.
  destruct buf as [|b0 [|b1 [|b2 [|b3 tl]]]]; cbn [length]; try lia.
  reflexivity.
Qed.

Lemma skipn_exact (a b : Buffer) n :
  n = length a -> skipn n (a ++ b) = b.
Proof.
  intros ->. rewrite skipn_app, skipn_all, Nat.sub_diag. reflexivity.
Qed.

Lemma firstn_exact (a b : Buffer) n :
  n = length a -> firstn n (a ++ b) = a.
Proof.
  intros ->. rewrite firstn_app, firstn_all, Nat.sub_diag.
  cbn [firstn]. apply app_nil_r.
Qed.

Lemma buf_length_app a b : buf_length (a ++ b) = buf_length a + buf_length b.
Proof. unfold buf_length. rewrite length_app. lia. Qed.

End BufferFacts.

(** ** The loop of the ['data'] listener *)

Module FramingFacts.
Import Framing BufferFacts.

(** The loop is left exactly when fewer than four octets are buffered or
    the length read exceeds what follows the header. *)
Lemma next_frame_None recvBuffer :
  next_frame recvBuffer = None <->
  buf_length recvBuffer < 4 \/
  exists len, readUInt32BE recvBuffer = Some len /\
              buf_length recvBuffer < 4 + len.
Proof.
  unfold next_frame.
  destruct (N.ltb_spec (buf_length recvBuffer) 4) as [H4|H4].
  - split; auto.
  - destruct (readUInt32BE recvBuffer) as [len|] eqn:E.
    + destruct (N.ltb_spec (buf_length recvBuffer) (4 + len)) as [Hl|Hl].
      * split; eauto.
      * split; [discriminate|].
        intros [?|(len' & [= <-] & ?)]; lia.
    + exfalso. unfold buf_length in H4.
      destruct recvBuffer as [|b0 [|b1 [|b2 [|b3 tl]]]];
        cbn [length] in H4; try lia; discriminate.
Qed.

(** A frame that is complete in the buffer is cut the same way whatever
    arrives after it. *)
Lemma next_frame_app recvBuffer chunk msgBuf rest :
  next_frame recvBuffer = Some (msgBuf, rest) ->
  next_frame (recvBuffer ++ chunk) = Some (msgBuf, rest ++ chunk).
Proof.
  intros H. apply next_frame_inv in H as (len & Hr & Hl & -> & ->).
  unfold next_frame.
  rewrite readUInt32BE_app, Hr, buf_length_app by lia.
  destruct (N.ltb_spec (buf_length recvBuffer + buf_length chunk) 4);
    [lia|].
  destruct (N.ltb_spec (buf_length recvBuffer + buf_length chunk) (4 + len));
    [lia|].
  unfold slice, slice_from, buf_length in *. f_equal. f_equal.
  - rewrite skipn_app, firstn_app, length_skipn.
    replace (N.to_nat (4 + len - 4) - (length recvBuffer - N.to_nat 4))%nat
      with O by lia.
    replace (N.to_nat 4 - length recvBuffer)%nat with O by lia.
    cbn [skipn firstn]. now rewrite app_nil_r.
  - rewrite skipn_app.
    replace (N.to_nat (4 + len) - length recvBuffer)%nat with O by lia.
    reflexivity.
Qed.

(** What [send] frames is what the loop cuts off the front. *)
Lemma next_frame_frame wrapBuf frame rest :
  frame_bytes wrapBuf = Some frame ->
  next_frame (frame ++ rest) = Some (wrapBuf, rest).
Proof.
  unfold frame_bytes.
  destruct (writeUInt32BE (buf_length wrapBuf)) as [header|] eqn:E;
    [|discriminate].
  intros [= <-].
  destruct (read_written _ _ (wrapBuf ++ rest) E) as [Hr Hh].
  unfold next_frame. rewrite <- !app_assoc, Hr.
  rewrite !buf_length_app.
  assert (buf_length header = 4) as -> by (unfold buf_length; lia).
  destruct (N.ltb_spec (4 + (buf_length wrapBuf + buf_length rest)) 4);
    [lia|].
  destruct (N.ltb_spec (4 + (buf_length wrapBuf + buf_length rest))
                       (4 + buf_length wrapBuf)); [lia|].
  unfold slice, slice_from, buf_length. f_equal. f_equal.
  - rewrite skipn_exact by lia. apply firstn_exact. lia.
  - rewrite app_assoc. apply skipn_exact. rewrite length_app. lia.
Qed.

Section Loop.

Variable S : Type.
Variable on_frame : S -> Buffer -> result S.

(** The loop, unrolled once. *)
Lemma data_loop_unroll recvBuffer s :
  data_loop on_frame recvBuffer s =
  match next_frame recvBuffer with
  | None => Ok (recvBuffer, s)
  | Some (msgBuf, rest) =>
      s' <- on_frame s msgBuf ;; data_loop on_frame rest s'
  end.
Proof.
  funelim (data_loop on_frame recvBuffer s);
    match goal with e : next_frame _ = _ |- _ => rewrite e end;
    try reflexivity;
    match goal with e : on_frame _ _ = _ |- _ => rewrite e end;
    reflexivity.
Qed.

(** When the listener returns, no complete frame is left in the buffer. *)
Lemma data_loop_stable recvBuffer s rest s' :
  data_loop on_frame recvBuffer s = Ok (rest, s') ->
  next_frame rest = None.
Proof.
  remember (length recvBuffer) as n eqn:Hn.
  revert recvBuffer s Hn.
  induction n as [n IH] using lt_wf_ind. intros recvBuffer s -> H.
  rewrite data_loop_unroll in H.
  destruct (next_frame recvBuffer) as [[msgBuf rest0]|] eqn:E.
  - destruct (on_frame s msgBuf) as [s0|]; [|discriminate].
    cbn [bind] in H.
    eapply IH; [eapply next_frame_shrinks; eassumption|reflexivity|].
    eassumption.
  - now injection H as <- <-.
Qed.

(** Running the loop on a buffer and on what arrives next is running it
    on the two together. *)
Lemma data_loop_app recvBuffer chunk s :
  data_loop on_frame (recvBuffer ++ chunk) s =
  (st <- data_loop on_frame recvBuffer s ;;
   data_loop on_frame (fst st ++ chunk) (snd st)).
Proof.
  remember (length recvBuffer) as n eqn:Hn.
  revert recvBuffer s Hn.
  induction n as [n IH] using lt_wf_ind. intros recvBuffer s ->.
  rewrite (data_loop_unroll recvBuffer).
  destruct (next_frame recvBuffer) as [[msgBuf rest]|] eqn:E.
  - rewrite data_loop_unroll, (next_frame_app _ chunk _ _ E).
    rewrite bind_assoc.
    destruct (on_frame s msgBuf) as [s0|]; [|reflexivity].
    cbn [bind].
    eapply IH; [eapply next_frame_shrinks; eassumption|reflexivity].
  - reflexivity.
Qed.

(** The loop only removes octets from the front. *)
Lemma data_loop_suffix recvBuffer s rest s' :
  data_loop on_frame recvBuffer s = Ok (rest, s') ->
  exists front, recvBuffer = front ++ rest.
Proof.
  remember (length recvBuffer) as n eqn:Hn.
  revert recvBuffer s Hn.
  induction n as [n IH] using lt_wf_ind. intros recvBuffer s -> H.
  rewrite data_loop_unroll in H.
  destruct (next_frame recvBuffer) as [[msgBuf rest0]|] eqn:E.
  - destruct (on_frame s msgBuf) as [s0|]; [|discriminate].
    cbn [bind] in H.
    destruct (IH _ (next_frame_shrinks _ _ _ E) rest0 s0 eq_refl H)
      as (front & Hfront).
    apply next_frame_inv in E as (len & _ & _ & _ & ->).
    exists (firstn (N.to_nat (4 + len)) recvBuffer ++ front).
    rewrite <- app_assoc, <- Hfront. unfold slice_from.
    now rewrite firstn_skipn.
  - injection H as <- <-. now exists [].
Qed.

(** What every run of the body preserves, the loop preserves. *)
Lemma data_loop_invariant (P : S -> Prop) :
  (forall s msgBuf s', P s -> on_frame s msgBuf = Ok s' -> P s') ->
  forall recvBuffer s rest s',
    P s -> data_loop on_frame recvBuffer s = Ok (rest, s') -> P s'.
Proof.
  intros Hbody recvBuffer.
  remember (length recvBuffer) as n eqn:Hn.
  revert recvBuffer Hn.
  induction n as [n IH] using lt_wf_ind. intros recvBuffer -> s rest s' Hs H.
  rewrite data_loop_unroll in H.
  destruct (next_frame recvBuffer) as [[msgBuf rest0]|] eqn:E.
  - destruct (on_frame s msgBuf) as [s0|] eqn:E0; [|discriminate].
    cbn [bind] in H.
    eapply (IH _ (next_frame_shrinks _ _ _ E) rest0 eq_refl s0);
      [eapply Hbody|]; eassumption.
  - injection H as <- <-. assumption.
Qed.

(** Chunk-boundary independence, for any body of the loop: between two
    ['data'] events the buffer holds no complete frame, and from such a
    buffer the chunks one by one do what their concatenation does. *)
Lemma feed_concat chunks recvBuffer s :
  next_frame recvBuffer = None ->
  feed on_frame (recvBuffer, s) chunks =
  on_data on_frame (recvBuffer, s) (concat chunks).
Proof.
  revert recvBuffer s. induction chunks as [|chunk more IH];
    intros recvBuffer s Hstable.
  - cbn [feed concat on_data]. unfold concat2.
    rewrite app_nil_r, data_loop_unroll, Hstable. reflexivity.
  - cbn [feed concat]. unfold on_data at 2. unfold concat2.
    rewrite app_assoc, data_loop_app.
    unfold on_data at 1. unfold concat2.
    destruct (data_loop on_frame (recvBuffer ++ chunk) s)
      as [[rest s']|] eqn:E; [|reflexivity].
    cbn [bind fst snd]. rewrite IH by (eapply data_loop_stable; eassumption).
    reflexivity.
Qed.

End Loop.

(** With the body that only keeps the frame bodies, the loop never fails
    and accounts for every octet: what it was given is, frame by frame, four
    octets of header and the body, and then the remainder. *)
Lemma record_total recvBuffer frames :
  exists rest more,
    data_loop record recvBuffer frames = Ok (rest, frames ++ more) /\
    buf_length recvBuffer
    = fold_right (fun msgBuf n => 4 + buf_length msgBuf + n)
                 (buf_length rest) more.
Proof.
  remember (length recvBuffer) as n eqn:Hn.
  revert recvBuffer frames Hn.
  induction n as [n IH] using lt_wf_ind. intros recvBuffer frames ->.
  rewrite data_loop_unroll.
  destruct (next_frame recvBuffer) as [[msgBuf rest]|] eqn:E.
  - cbn [record bind].
    destruct (IH _ (next_frame_shrinks _ _ _ E) rest (frames ++ [msgBuf]) eq_refl)
      as (rest' & more & -> & Hlen).
    exists rest', (msgBuf :: more). rewrite <- app_assoc. split; [reflexivity|].
    cbn [fold_right]. rewrite <- Hlen.
    apply next_frame_inv in E as (len & _ & Hl & -> & ->).
    unfold slice, slice_from, buf_length in *.
    rewrite length_firstn, !length_skipn. lia.
  - exists recvBuffer, []. now rewrite app_nil_r.
Qed.

End FramingFacts.

(** ** Properties of the framing *)

Module FramingProperties.
Import Framing BufferFacts FramingFacts.

(** Two sample envelopes of 10 and 19 octets; framed, they take 37. *)
Definition body1 : Buffer := map octet [8; 185; 16; 18; 4; 1; 2; 3; 4; 26].
Definition body2 : Buffer :=
  map octet [8; 211; 16; 18; 13; 10; 20; 30; 40; 50; 60; 70; 80; 90; 100;
             110; 120; 130; 140].
Definition frame1 : Buffer := map octet [0; 0; 0; 10] ++ body1.
Definition frame2 : Buffer := map octet [0; 0; 0; 19] ++ body2.

(** C1. Feeding the chunks of a connection one at a time to the ['data']
    listener (append to [recvBuffer], then cut off length-prefixed frames
    while a whole one is present) yields the same frame bodies, in the same
    order, and the same remainder, as feeding their concatenation at once.
    In particular two frames that take 37 octets together, delivered as
    10, 5 and 22 octets, yield exactly the two bodies and nothing is left. *)
Theorem chunk_boundary_independence :
  (forall chunks : list Buffer,
      feed record ([], []) chunks
      = on_data record ([], []) (concat chunks)) /\
  (forall wrapBuf1 wrapBuf2 f1 f2 : Buffer,
      frame_bytes wrapBuf1 = Some f1 ->
      frame_bytes wrapBuf2 = Some f2 ->
      length (f1 ++ f2) = 37%nat ->
      let stream := f1 ++ f2 in
      let chunks := [firstn 10 stream; firstn 5 (skipn 10 stream);
                     skipn 15 stream] in
      map (@length byte) chunks = [10; 5; 22]%nat /\
      feed record ([], []) chunks = Ok ([], [wrapBuf1; wrapBuf2])).
Proof.
  split.
  - intros chunks. now apply feed_concat.
  - intros wrapBuf1 wrapBuf2 f1 f2 H1 H2 Hlen stream chunks. split.
    + subst chunks. cbn [map].
      rewrite !length_firstn, !length_skipn. unfold stream.
      rewrite Hlen. reflexivity.
    + rewrite feed_concat by reflexivity.
      assert (concat chunks = stream) as ->.
      { subst chunks. cbn [concat]. rewrite app_nil_r.
        change 15%nat with (5 + 10)%nat. rewrite <- skipn_skipn.
        now rewrite !firstn_skipn. }
      unfold on_data, concat2, stream. cbn [app].
      rewrite data_loop_unroll, (next_frame_frame _ _ _ H1).
      cbn [record bind app].
      rewrite <- (app_nil_r f2).
      rewrite data_loop_unroll, (next_frame_frame _ _ _ H2).
      cbn [record bind app].
      rewrite data_loop_unroll. reflexivity.
Qed.

Lemma chunk_boundary_independence_witness :
  frame_bytes body1 = Some frame1 /\
  frame_bytes body2 = Some frame2 /\
  length (frame1 ++ frame2) = 37%nat /\
  feed record ([], [])
       [firstn 10 (frame1 ++ frame2);
        firstn 5 (skipn 10 (frame1 ++ frame2));
        skipn 15 (frame1 ++ frame2)]
  = Ok ([], [body1; body2]).
Proof.
  split; [reflexivity|]. split; [reflexivity|]. split; [reflexivity|].
  exact (proj2 (proj2 chunk_boundary_independence body1 body2 frame1 frame2
                      eq_refl eq_refl eq_refl)).
Defined.

(** C10. The loop of the ['data'] listener terminates on every buffer.
    An iteration that goes on removes the four octets of the header and the
    [len] octets of the body from the front, so the buffer gets strictly
    shorter; with a body that only keeps the frames the loop always
    returns, and every octet it was given is in a frame it cut or in the
    remainder; and the buffer the loop leaves, whatever its body does, is
    the end of the buffer it was given and holds no complete frame: it has
    fewer than four octets, or the length it declares exceeds what follows
    the header. *)
Theorem extraction_terminates :
  (forall recvBuffer : Buffer,
      match next_frame recvBuffer with
      | Some (msgBuf, rest) =>
          exists len,
            readUInt32BE recvBuffer = Some len /\
            recvBuffer = firstn 4 recvBuffer ++ msgBuf ++ rest /\
            buf_length msgBuf = len /\
            buf_length rest + (4 + len) = buf_length recvBuffer /\
            (length rest < length recvBuffer)%nat
      | None =>
          buf_length recvBuffer < 4 \/
          exists len, readUInt32BE recvBuffer = Some len /\
                      buf_length recvBuffer < 4 + len
      end) /\
  (forall (recvBuffer : Buffer) (frames : list Buffer),
      exists rest more,
        data_loop record recvBuffer frames = Ok (rest, frames ++ more) /\
        buf_length recvBuffer
        = fold_right (fun msgBuf n => 4 + buf_length msgBuf + n)
                     (buf_length rest) more /\
        (buf_length rest < 4 \/
         exists len, readUInt32BE rest = Some len /\
                     buf_length rest < 4 + len)) /\
  (forall (S : Type) (on_frame : S -> Buffer -> result S)
          (recvBuffer : Buffer) (s : S),
      match data_loop on_frame recvBuffer s with
      | Ok (rest, _) =>
          (exists front, recvBuffer = front ++ rest) /\
          (buf_length rest < 4 \/
           exists len, readUInt32BE rest = Some len /\
                       buf_length rest < 4 + len)
      | Uncaught => True
      end).
Proof.
  split; [|split].
  - intros recvBuffer.
    destruct (next_frame recvBuffer) as [[msgBuf rest]|] eqn:E.
    + pose proof (next_frame_shrinks _ _ _ E) as Hlt.
      apply next_frame_inv in E as (len & Hr & Hl & -> & ->).
      exists len. unfold slice, slice_from, buf_length in *.
      repeat split; trivial.
      * replace (N.to_nat (4 + len)) with (N.to_nat (4 + len - 4) + 4)%nat
          by lia.
        rewrite <- skipn_skipn. change (N.to_nat 4) with 4%nat.
        now rewrite !firstn_skipn.
      * rewrite length_firstn, length_skipn. lia.
      * rewrite length_skipn. lia.
    + now apply next_frame_None.
  - intros recvBuffer frames.
    destruct (record_total recvBuffer frames) as (rest & more & E & Hlen).
    exists rest, more. split; [assumption|]. split; [assumption|].
    apply next_frame_None. eapply data_loop_stable; eassumption.
  - intros S on_frame recvBuffer s.
    destruct (data_loop on_frame recvBuffer s) as [[rest s']|] eqn:E;
      [|exact I].
    split.
    + eapply data_loop_suffix; eassumption.
    + apply next_frame_None. eapply data_loop_stable; eassumption.
Qed.

(** A header that declares the largest length 32 bits can hold, followed by
    three octets. *)
Definition greedy : Buffer := map octet [255; 255; 255; 255; 1; 2; 3].

(** C8, as stated, fails: there is no cap. A header that declares
    4294967295 octets is not refused; the listener returns normally, keeps
    the octets, and keeps appending what arrives next. *)
Lemma oversized_length_is_buffered :
  readUInt32BE greedy = Some 4294967295 /\
  on_data record ([], []) greedy = Ok (greedy, []) /\
  feed record ([], []) [greedy; map octet [4; 5]]
  = Ok (greedy ++ map octet [4; 5], []).
Proof. repeat split. Qed.

(** C8, amended. The frame consumer enforces no maximum frame size and
    never fails on a length: whatever the body of the loop does with frames,
    when the length declared by the first four octets exceeds what is
    buffered after them, however large it is, the listener cuts no frame,
    raises nothing and keeps the whole buffer, waiting for more; and a frame
    of any length that [send] can write is cut as soon as all of it is there. *)
Theorem no_frame_size_cap :
  (forall (S : Type) (on_frame : S -> Buffer -> result S)
          (recvBuffer chunk : Buffer) (s : S) (len : N),
      readUInt32BE (recvBuffer ++ chunk) = Some len ->
      buf_length (recvBuffer ++ chunk) < 4 + len ->
      on_data on_frame (recvBuffer, s) chunk = Ok (recvBuffer ++ chunk, s)) /\
  (forall wrapBuf frame : Buffer,
      frame_bytes wrapBuf = Some frame ->
      on_data record ([], []) frame = Ok ([], [wrapBuf])).
Proof.
  split.
  - intros S on_frame recvBuffer chunk s len Hr Hl.
    unfold on_data, concat2. rewrite data_loop_unroll.
    assert (next_frame (recvBuffer ++ chunk) = None) as ->; [|reflexivity].
    apply next_frame_None. eauto.
  - intros wrapBuf frame H. unfold on_data, concat2. cbn [app].
    rewrite <- (app_nil_r frame).
    rewrite data_loop_unroll, (next_frame_frame _ _ _ H).
    cbn [record bind app]. rewrite data_loop_unroll. reflexivity.
Qed.

Lemma no_frame_size_cap_witness :
  readUInt32BE ([] ++ greedy) = Some 4294967295 /\
  buf_length ([] ++ greedy) < 4 + 4294967295 /\
  on_data record ([], []) greedy = Ok ([] ++ greedy, []) /\
  frame_bytes body1 = Some frame1 /\
  on_data record ([], []) frame1 = Ok ([], [body1]).
Proof.
  split; [reflexivity|]. split; [reflexivity|]. split.
  - apply (proj1 no_frame_size_cap _ record [] greedy [] 4294967295);
      reflexivity.
  - split; [reflexivity|].
    apply (proj2 no_frame_size_cap body1 frame1). reflexivity.
Defined.

End FramingProperties.


(** ** Properties of the token refresh *)

Module RefreshProperties.
Import Refresh.

(** A [.env] file and the variables [dotenv] reads from it. *)
Definition env0 : string :=
  join_lines [Some "CTRADER_CLIENT_ID=app"%string;
              Some "CTRADER_CLIENT_SECRET=secret"%string;
              Some "CTRADER_ACCESS_TOKEN=A1"%string;
              Some "CTRADER_REFRESH_TOKEN=R1"%string;
              Some "CTRADER_ACCOUNT_ID=42"%string].

Definition vars0 : Vars :=
  {| CTRADER_CLIENT_ID := Some "app"%string;
     CTRADER_CLIENT_SECRET := Some "secret"%string;
     CTRADER_ACCESS_TOKEN := Some "A1"%string;
     CTRADER_REFRESH_TOKEN := Some "R1"%string;
     CTRADER_ACCOUNT_ID := Some "42"%string |}.

(** The endpoint grants a new pair. *)
Definition granted (a r : string) : Response :=
  {| ok := true; status := 200; text := EmptyString;
     json := Some {| access_token := Some a; refresh_token := Some r |} |}.

(** The endpoint refuses. *)
Definition refused : Response :=
  {| ok := false; status := 400; text := "invalid_grant"%string;
     json := None |}.

Definition world0 (answers : list Response) : World :=
  {| vars := vars0; env_file := Some env0; authority := answers;
     posted := []; console := [] |}.

(** What a successful exchange does, for any world with a [.env] file. *)
Lemma refresh_success w res answers data content :
  authority w = res :: answers ->
  ok res = true ->
  json res = Some data ->
  env_file w = Some content ->
  exists w',
    refreshAccessToken w = (Returned, w') /\
    CTRADER_ACCESS_TOKEN (vars w') = access_token data /\
    CTRADER_REFRESH_TOKEN (vars w') = CTRADER_REFRESH_TOKEN (vars w) /\
    env_file w' =
    Some (join_lines
            [update (split_lines content) "CTRADER_CLIENT_ID"
                    (CTRADER_CLIENT_ID (vars w));
             update (split_lines content) "CTRADER_CLIENT_SECRET"
                    (CTRADER_CLIENT_SECRET (vars w));
             update (split_lines content) "CTRADER_ACCESS_TOKEN"
                    (access_token data);
             update (split_lines content) "CTRADER_REFRESH_TOKEN"
                    (refresh_token data);
             update (split_lines content) "CTRADER_ACCOUNT_ID"
                    (CTRADER_ACCOUNT_ID (vars w))]).
Proof.
  intros Ha Hok Hj He. unfold refreshAccessToken, fetch.
  rewrite Ha, Hok, Hj. cbn. rewrite He. cbn.
  eexists. repeat split.
Qed.

(** C6, at a failing input. The endpoint grants the pair (A2, R2). The
    [.env] file then holds A2 and R2, but of the variables only the access
    token is assigned: [CTRADER_REFRESH_TOKEN] still holds R1, so the
    variables hold the pair (A2, R1), which matches neither the old pair nor
    the stored one, and a later call would post the superseded R1. *)
Theorem refresh_leaves_refresh_token_stale :
  let (completion, w) := refreshAccessToken (world0 [granted "A2" "R2"]) in
  completion = Returned /\
  env_file w =
  Some (join_lines [Some "CTRADER_CLIENT_ID=app"%string;
                    Some "CTRADER_CLIENT_SECRET=secret"%string;
                    Some "CTRADER_ACCESS_TOKEN=A2"%string;
                    Some "CTRADER_REFRESH_TOKEN=R2"%string;
                    Some "CTRADER_ACCOUNT_ID=42"%string]) /\
  CTRADER_ACCESS_TOKEN (vars w) = Some "A2"%string /\
  CTRADER_REFRESH_TOKEN (vars w) = Some "R1"%string /\
  map posted_refresh_token (posted (snd (refreshAccessToken w)))
  = [Some "R1"%string; Some "R1"%string].
Proof. vm_compute. repeat split. Qed.

(** C7, as stated, fails: the endpoint refuses the first request and would
    grant the second, but the first refusal already ends the process with
    code 1. One request was made and the granting answer is never asked
    for. *)
Lemma first_refusal_is_fatal :
  let (completion, w) :=
    refreshAccessToken (world0 [refused; granted "A2" "R2"]) in
  completion = Exited 1 /\
  length (posted w) = 1%nat /\
  authority w = [granted "A2" "R2"] /\
  vars w = vars0 /\ env_file w = Some env0.
Proof. vm_compute. repeat split. Qed.

(** C7, amended. A failed exchange is fatal at the first attempt and is
    never retried: when the endpoint answers with a status that is not OK,
    the status and the body are printed and the process exits with code 1;
    when the request itself fails, the call is rejected. In both cases
    exactly one request has been made, and the variables and the [.env] file
    are as before. *)
Theorem refresh_failure_is_fatal_at_once :
  forall w : World,
    match authority w with
    | [] => True
    | res :: _ => ok res = false
    end ->
    exists completion w',
      refreshAccessToken w = (completion, w') /\
      match authority w with
      | [] => completion = Rejected /\ console w' = console w
      | res :: _ =>
          completion = Exited 1 /\
          console w' = console w ++ [Token_refresh_failed (status res) (text res)]
      end /\
      length (posted w') = Datatypes.S (length (posted w)) /\
      authority w' = tl (authority w) /\
      vars w' = vars w /\ env_file w' = env_file w.
Proof.
  intros w H. unfold refreshAccessToken, fetch.
  destruct (authority w) as [|res answers].
  - do 2 eexists. split; [reflexivity|]. cbn.
    rewrite length_app. cbn. repeat split. lia.
  - rewrite H. cbn. do 2 eexists. split; [reflexivity|]. cbn.
    rewrite length_app. cbn. repeat split. lia.
Qed.

Lemma refresh_failure_is_fatal_at_once_witness :
  exists completion w',
    refreshAccessToken (world0 [refused; granted "A2" "R2"]) = (completion, w') /\
    (completion = Exited 1 /\
     console w' = [Token_refresh_failed 400 "invalid_grant"]) /\
    length (posted w') = 1%nat /\
    authority w' = [granted "A2" "R2"] /\
    vars w' = vars0 /\ env_file w' = Some env0.
Proof.
  apply (refresh_failure_is_fatal_at_once (world0 [refused; granted "A2" "R2"])).
  reflexivity.
Defined.

End RefreshProperties.


(** ** The callbacks, the [switch] and the runs of the stream *)

Module FeedFacts.
Import Refresh Feed Framing FramingFacts.

(** The event that lets a request go out: the connection for the first
    request, and for each later one the response to the request of the stage
    before it. *)
Definition licence (V : PayloadTypeValues) (typeName : TypeName) : Obs :=
  match typeName with
  | VersionReq => Console Connected
  | AppAuthReq => Recv (PROTO_OA_VERSION_RES V)
  | AccountAuthReq => Recv (PROTO_OA_APPLICATION_AUTH_RES V)
  | SymbolsListReq => Recv (PROTO_OA_ACCOUNT_AUTH_RES V)
  | SubscribeSpotsReq => Recv (PROTO_OA_SYMBOLS_LIST_RES V)
  end.

(** Every request in the trace has its licence before it. *)
Definition licensed (V : PayloadTypeValues) (t : list Obs) : Prop :=
  forall before k typeName fields after,
    t = before ++ Sent k typeName fields :: after ->
    In (licence V typeName) before.

(** The request that the first three cases of the [switch] send in reaction
    to a payload type. *)
Definition reaction (V : PayloadTypeValues) (pt : N) : option TypeName :=
  if pt =? PROTO_OA_VERSION_RES V then Some AppAuthReq
  else if pt =? PROTO_OA_APPLICATION_AUTH_RES V then Some AccountAuthReq
  else if pt =? PROTO_OA_ACCOUNT_AUTH_RES V then Some SymbolsListReq
  else None.

(** The requests of the three stages that are answered at once, as sent,
    and the same requests as called for by what was received. *)
Definition sync_request (o : Obs) : list TypeName :=
  match o with
  | Sent _ AppAuthReq _ => [AppAuthReq]
  | Sent _ AccountAuthReq _ => [AccountAuthReq]
  | Sent _ SymbolsListReq _ => [SymbolsListReq]
  | _ => []
  end.

Definition called_for (V : PayloadTypeValues) (o : Obs) : list TypeName :=
  match o with
  | Recv pt => match reaction V pt with
               | Some typeName => [typeName]
               | None => []
               end
  | _ => []
  end.

(** Requests go out one for one with the responses that call for them, in
    the order of these responses. *)
Definition mirrored (V : PayloadTypeValues) (c : Client) : Prop :=
  flat_map sync_request (trace c) = flat_map (called_for V) (trace c).

(** The values the [switch] knows, in the order of its cases. *)
Definition known (V : PayloadTypeValues) : list N :=
  [PROTO_OA_VERSION_RES V; PROTO_OA_APPLICATION_AUTH_RES V;
   PROTO_OA_ACCOUNT_AUTH_RES V; PROTO_OA_SYMBOLS_LIST_RES V;
   PROTO_OA_SPOT_EVENT V; PROTO_OA_ERROR_RES V].

Definition is_Sent (o : Obs) : bool :=
  match o with
  | Sent _ _ _ => true
  | _ => false
  end.

Lemma licensed_nil V : licensed V [].
Proof.
  intros before k typeName fields after H.
  destruct before; discriminate.
Qed.

Lemma licensed_snoc V t o :
  licensed V t ->
  (forall k typeName fields,
      o = Sent k typeName fields -> In (licence V typeName) t) ->
  licensed V (t ++ [o]).
Proof.
  intros Ht Ho before k typeName fields after H.
  destruct (exists_last (l := Sent k typeName fields :: after))
    as (front & last & E); [discriminate|].
  rewrite E, app_assoc in H. apply app_inj_tail in H as [H1 H2].
  destruct front as [|x front]; cbn [app] in E; injection E as E1 E2.
  - rewrite app_nil_r in H1. subst. eapply Ho. reflexivity.
  - subst. eapply Ht. reflexivity.
Qed.

(** The invariant of the runs: requests are licensed, and a question
    is open only after a symbol list was received. *)
Definition orderly (V : PayloadTypeValues) (c : Client) : Prop :=
  licensed V (trace c) /\
  (questions c = [] \/ In (Recv (PROTO_OA_SYMBOLS_LIST_RES V)) (trace c)).

Lemma orderly_observe V o c :
  is_Sent o = false -> orderly V c -> orderly V (observe o c).
Proof.
  intros Ho [Ht Hq]. split; cbn [trace questions observe].
  - apply licensed_snoc; [assumption|]. intros k tn f ->. discriminate.
  - destruct Hq as [Hq|Hq]; [now left|right]. apply in_or_app. now left.
Qed.

Lemma orderly_send V typeName fields c :
  In (licence V typeName) (trace c) ->
  orderly V c -> orderly V (send typeName fields c).
Proof.
  intros Hl [Ht Hq]. unfold send. apply orderly_observe; [reflexivity|].
  split; cbn [trace questions observe].
  - apply licensed_snoc; [assumption|]. now intros k tn f [= _ <- _].
  - destruct Hq as [Hq|Hq]; [now left|right]. apply in_or_app. now left.
Qed.

Lemma in_observed o c : In o (trace (observe o c)).
Proof. cbn. apply in_or_app. right. now left. Qed.

Lemma in_observe_keep o o' c : In o (trace c) -> In o (trace (observe o' c)).
Proof. intros H. cbn. apply in_or_app. now left. Qed.

Section WithExternals.

Variable ext : Externals.
Let V := values ext.

Lemma on_frame_orderly c msgBuf c' :
  orderly V c -> on_frame ext c msgBuf = Ok c' -> orderly V c'.
Proof.
  intros Hc. unfold on_frame.
  destruct (ProtoMessage_decode ext msgBuf) as [wrap|]; [|discriminate].
  set (c0 := observe (Recv (payloadType wrap)) c).
  assert (Hc0 : orderly V c0) by now apply orderly_observe.
  assert (Hin : In (Recv (payloadType wrap)) (trace c0)) by apply in_observed.
  unfold dispatch. fold V.
  destruct (N.eqb_spec (payloadType wrap) (PROTO_OA_VERSION_RES V)) as [E|_].
  { intros [= <-]. cbn [emit]. apply orderly_send.
    - apply in_observe_keep. cbn [licence]. now rewrite <- E.
    - now apply orderly_observe. }
  destruct (N.eqb_spec (payloadType wrap) (PROTO_OA_APPLICATION_AUTH_RES V))
    as [E|_].
  { intros [= <-]. cbn [emit]. apply orderly_send.
    - apply in_observe_keep. cbn [licence]. now rewrite <- E.
    - now apply orderly_observe. }
  destruct (N.eqb_spec (payloadType wrap) (PROTO_OA_ACCOUNT_AUTH_RES V))
    as [E|_].
  { intros [= <-]. cbn [emit]. apply orderly_send.
    - apply in_observe_keep. cbn [licence]. now rewrite <- E.
    - now apply orderly_observe. }
  destruct (N.eqb_spec (payloadType wrap) (PROTO_OA_SYMBOLS_LIST_RES V))
    as [E|_].
  { destruct (SymbolsListRes_decode ext (payload wrap)) as [res|];
      [|discriminate].
    intros [= <-]. cbn [emit].
    assert (H4 : orderly V
                   (observe Asked_symbol
                      (observe (Console Symbols_csv_written)
                         (observe (Wrote_symbols_csv (symbol res))
                            (observe (Console (Received_symbols
                                                 (length (symbol res)))) c0)))))
      by (repeat apply orderly_observe; trivial).
    destruct H4 as [H4 _]. split; cbn [trace questions].
    - exact H4.
    - right. rewrite <- E, !in_app_iff. cbn. tauto. }
  destruct (N.eqb_spec (payloadType wrap) (PROTO_OA_SPOT_EVENT V)) as [E|_].
  { destruct (SpotEvent_decode ext (payload wrap)) as [ev|]; [|discriminate].
    intros [= <-]. cbn [emit]. now apply orderly_observe. }
  destruct (N.eqb_spec (payloadType wrap) (PROTO_OA_ERROR_RES V)) as [E|_].
  { destruct (ErrorRes_decode ext (payload wrap)) as [err|]; [|discriminate].
    intros [= <-]. cbn [emit]. now apply orderly_observe. }
  intros [= <-]. now apply orderly_observe.
Qed.

Lemma on_frame_mirrored c msgBuf c' :
  mirrored V c -> on_frame ext c msgBuf = Ok c' -> mirrored V c'.
Proof.
  unfold mirrored. intros Hc. unfold on_frame, dispatch.
  destruct (ProtoMessage_decode ext msgBuf) as [wrap|]; [|discriminate].
  fold V.
  destruct (payloadType wrap =? PROTO_OA_VERSION_RES V) eqn:E1;
    [|destruct (payloadType wrap =? PROTO_OA_APPLICATION_AUTH_RES V) eqn:E2;
      [|destruct (payloadType wrap =? PROTO_OA_ACCOUNT_AUTH_RES V) eqn:E3]];
    repeat match goal with
           | |- context [N.eqb ?a ?b] => destruct (N.eqb a b)
           | |- context [match ?d with Some _ => _ | None => _ end] =>
               destruct d
           end;
    try discriminate; intros [= <-];
    unfold emit, send, observe; cbn [trace world sock questions timers];
    rewrite !flat_map_app, Hc;
    cbn [flat_map sync_request called_for app]; unfold reaction;
    rewrite ?E1, ?E2, ?E3, ?app_nil_r, <- ?app_assoc; reflexivity.
Qed.

Lemma step_mirrored st e st' :
  mirrored V (snd st) -> step ext st e = Ok st' -> mirrored V (snd st').
Proof.
  destruct st as [recvBuffer c], st' as [rest c']. cbn [snd].
  unfold mirrored at 1. intros Hc.
  destruct e as [|chunk|message| | |i a]; cbn [step].
  - intros [= <- <-]. unfold mirrored, send, observe. cbn [trace].
    rewrite !flat_map_app, Hc. cbn. now rewrite !app_nil_r.
  - unfold on_data. apply data_loop_invariant; [|assumption].
    intros s msgBuf s' Hs. now apply on_frame_mirrored.
  - intros [= <- <-]. unfold mirrored, observe. cbn [trace].
    rewrite !flat_map_app, Hc. reflexivity.
  - intros [= <- <-]. unfold mirrored, observe. cbn [trace].
    rewrite !flat_map_app, Hc. reflexivity.
  - destruct (timers c); now intros [= <- <-].
  - destruct (nth_error (questions c) i); intros [= <- <-]; [|assumption].
    unfold mirrored, answered. destruct (find _ _);
      unfold send, observe; cbn [trace];
      rewrite !flat_map_app, Hc; cbn; now rewrite ?app_nil_r.
Qed.

Lemma run_mirrored events st st' :
  mirrored V (snd st) -> run ext st events = Ok st' -> mirrored V (snd st').
Proof.
  revert st. induction events as [|e more IH]; intros st Hst; cbn [run].
  - now intros [= <-].
  - destruct (step ext st e) as [st1|] eqn:E; [|discriminate]. cbn [bind].
    apply IH. eapply step_mirrored; eassumption.
Qed.

Lemma answered_orderly all a c :
  In (Recv (PROTO_OA_SYMBOLS_LIST_RES V)) (trace c) ->
  orderly V c -> orderly V (answered ext all a c).
Proof.
  intros Hin Hc. unfold answered.
  destruct (find _ all) as [m|].
  - now apply orderly_send.
  - now apply orderly_observe.
Qed.

Lemma step_orderly st e st' :
  orderly V (snd st) -> step ext st e = Ok st' -> orderly V (snd st').
Proof.
  destruct st as [recvBuffer c], st' as [rest c']. cbn [snd].
  intros Hc. destruct e as [|chunk|message| | |i a]; cbn [step].
  - intros [= <- <-]. apply orderly_send.
    + apply in_observed.
    + now apply orderly_observe.
  - unfold on_data. apply data_loop_invariant; [|assumption].
    intros s msgBuf s' Hs. now apply on_frame_orderly.
  - intros [= <- <-]. now apply orderly_observe.
  - intros [= <- <-].
    destruct (orderly_observe V (Console Closed_reconnecting_in_5s) c
                              eq_refl Hc) as [H1 H2].
    split; assumption.
  - destruct (timers c) as [|n]; intros [= <- <-]; [assumption|].
    destruct Hc as [H1 H2]. split; assumption.
  - destruct (nth_error (questions c) i) as [all|] eqn:E;
      intros [= <- <-]; [|assumption].
    destruct Hc as [H1 [H2|H2]].
    + rewrite H2 in E. destruct i; discriminate.
    + apply answered_orderly; [assumption|]. split; [assumption|now right].
Qed.

Lemma run_orderly events st st' :
  orderly V (snd st) -> run ext st events = Ok st' -> orderly V (snd st').
Proof.
  revert st. induction events as [|e more IH]; intros st Hst; cbn [run].
  - now intros [= <-].
  - destruct (step ext st e) as [st1|] eqn:E; [|discriminate]. cbn [bind].
    apply IH. eapply step_orderly; eassumption.
Qed.

(** Nothing that happens on the stream touches the variables, the [.env]
    file or the token endpoint. *)
Lemma on_frame_world c msgBuf c' :
  on_frame ext c msgBuf = Ok c' -> world c' = world c.
Proof.
  unfold on_frame, dispatch.
  destruct (ProtoMessage_decode ext msgBuf) as [wrap|]; [|discriminate].
  repeat match goal with
         | |- context [N.eqb ?a ?b] => destruct (N.eqb a b)
         | |- context [match ?d with Some _ => _ | None => _ end] =>
             destruct d
         end;
    try discriminate; now intros [= <-].
Qed.

Lemma step_world st e st' :
  step ext st e = Ok st' -> world (snd st') = world (snd st).
Proof.
  destruct st as [recvBuffer c], st' as [rest c']. cbn [snd].
  destruct e as [|chunk|message| | |i a]; cbn [step].
  - now intros [= <- <-].
  - unfold on_data. intros H.
    apply (data_loop_invariant _ (on_frame ext)
                               (fun s => world s = world c)) in H; trivial.
    intros s msgBuf s' Hs Hf. rewrite <- Hs. eapply on_frame_world, Hf.
  - now intros [= <- <-].
  - now intros [= <- <-].
  - destruct (timers c); now intros [= <- <-].
  - destruct (nth_error (questions c) i); intros [= <- <-]; [|reflexivity].
    unfold answered. now destruct (find _ _).
Qed.

Lemma run_world events st st' :
  run ext st events = Ok st' -> world (snd st') = world (snd st).
Proof.
  revert st. induction events as [|e more IH]; intros st; cbn [run].
  - now intros [= <-].
  - destruct (step ext st e) as [st1|] eqn:E; [|discriminate]. cbn [bind].
    intros H. rewrite (IH _ H). eapply step_world, E.
Qed.

(** Which case the [switch] takes, when the values of the enumeration are
    pairwise distinct. *)
Lemma distinct_eqb i j a b :
  NoDup (known V) -> i <> j ->
  nth_error (known V) i = Some a -> nth_error (known V) j = Some b ->
  (a =? b) = false.
Proof.
  intros Hd Hij Ha Hb. apply N.eqb_neq. intros ->. apply Hij.
  eapply (proj1 (NoDup_nth_error (known V)) Hd).
  - apply nth_error_Some. congruence.
  - congruence.
Qed.

Lemma unknown_eqb pt x :
  ~ In pt (known V) -> In x (known V) -> (pt =? x) = false.
Proof. intros Hn Hx. apply N.eqb_neq. intros ->. contradiction. Qed.

Lemma on_frame_unknown c msgBuf wrap :
  ProtoMessage_decode ext msgBuf = Some wrap ->
  ~ In (payloadType wrap) (known V) ->
  on_frame ext c msgBuf
  = Ok (observe (Console (Unhandled_payload (payloadType wrap)))
                (observe (Recv (payloadType wrap)) c)).
Proof.
  intros Hdec E. unfold on_frame, dispatch. rewrite Hdec. fold V.
  rewrite !(unknown_eqb (payloadType wrap) _ E) by (cbn; tauto). reflexivity.
Qed.

Lemma on_frame_cases c msgBuf wrap :
  NoDup (known V) ->
  ProtoMessage_decode ext msgBuf = Some wrap ->
  let pt := payloadType wrap in
  let c0 := observe (Recv pt) c in
  (pt = PROTO_OA_VERSION_RES V ->
   on_frame ext c msgBuf = Ok (emit version c0)) /\
  (pt = PROTO_OA_APPLICATION_AUTH_RES V ->
   on_frame ext c msgBuf = Ok (emit auth_app c0)) /\
  (pt = PROTO_OA_ACCOUNT_AUTH_RES V ->
   on_frame ext c msgBuf = Ok (emit auth_account c0)) /\
  (pt = PROTO_OA_SYMBOLS_LIST_RES V ->
   on_frame ext c msgBuf =
   match SymbolsListRes_decode ext (payload wrap) with
   | Some res => Ok (emit (symbols_list res) c0)
   | None => Uncaught
   end) /\
  (pt = PROTO_OA_SPOT_EVENT V ->
   on_frame ext c msgBuf =
   match SpotEvent_decode ext (payload wrap) with
   | Some ev => Ok (emit (spot ev) c0)
   | None => Uncaught
   end) /\
  (pt = PROTO_OA_ERROR_RES V ->
   on_frame ext c msgBuf =
   match ErrorRes_decode ext (payload wrap) with
   | Some err => Ok (emit (error_res err) c0)
   | None => Uncaught
   end) /\
  (~ In pt (known V) ->
   on_frame ext c msgBuf = Ok (observe (Console (Unhandled_payload pt)) c0)).
Proof.
  intros Hd Hdec pt c0. unfold on_frame, dispatch. rewrite Hdec.
  fold pt c0 V.
  repeat split; intros E.
  - now rewrite E, N.eqb_refl.
  - rewrite E, N.eqb_refl.
    now rewrite (distinct_eqb 1 0 _ _ Hd ltac:(lia) eq_refl eq_refl).
  - rewrite E, N.eqb_refl.
    now rewrite (distinct_eqb 2 0 _ _ Hd ltac:(lia) eq_refl eq_refl),
                (distinct_eqb 2 1 _ _ Hd ltac:(lia) eq_refl eq_refl).
  - rewrite E, N.eqb_refl.
    now rewrite (distinct_eqb 3 0 _ _ Hd ltac:(lia) eq_refl eq_refl),
                (distinct_eqb 3 1 _ _ Hd ltac:(lia) eq_refl eq_refl),
                (distinct_eqb 3 2 _ _ Hd ltac:(lia) eq_refl eq_refl).
  - rewrite E, N.eqb_refl.
    now rewrite (distinct_eqb 4 0 _ _ Hd ltac:(lia) eq_refl eq_refl),
                (distinct_eqb 4 1 _ _ Hd ltac:(lia) eq_refl eq_refl),
                (distinct_eqb 4 2 _ _ Hd ltac:(lia) eq_refl eq_refl),
                (distinct_eqb 4 3 _ _ Hd ltac:(lia) eq_refl eq_refl).
  - rewrite E, N.eqb_refl.
    now rewrite (distinct_eqb 5 0 _ _ Hd ltac:(lia) eq_refl eq_refl),
                (distinct_eqb 5 1 _ _ Hd ltac:(lia) eq_refl eq_refl),
                (distinct_eqb 5 2 _ _ Hd ltac:(lia) eq_refl eq_refl),
                (distinct_eqb 5 3 _ _ Hd ltac:(lia) eq_refl eq_refl),
                (distinct_eqb 5 4 _ _ Hd ltac:(lia) eq_refl eq_refl).
  - rewrite !(unknown_eqb pt _ E) by (cbn; tauto). reflexivity.
Qed.

End WithExternals.

End FeedFacts.


(** ** A protocol schema to run the stream on *)

Module Sample.
Import Refresh Feed Framing.

(** The values of [ProtoOAPayloadType] in the broker's published schema. *)
Definition published : PayloadTypeValues :=
  {| PROTO_OA_VERSION_RES := 2105;
     PROTO_OA_APPLICATION_AUTH_RES := 2101;
     PROTO_OA_ACCOUNT_AUTH_RES := 2103;
     PROTO_OA_SYMBOLS_LIST_RES := 2115;
     PROTO_OA_SPOT_EVENT := 2131;
     PROTO_OA_ERROR_RES := 2142 |}.

(** An envelope in protocol-buffer encoding, for payload types of two
    varint octets and payloads shorter than 128 octets: field 1 as a varint,
    field 2 with its length. *)
Definition envelope (pt : N) (payload : Buffer) : Buffer :=
  [x08; octet (128 + pt mod 128); octet (pt / 128);
   x12; octet (buf_length payload)] ++ payload.

(** A decoder that reads exactly the envelopes [envelope] writes and raises
    on everything else. *)
Definition decode_envelope (msgBuf : Buffer) : option ProtoMessage :=
  match msgBuf with
  | x08 :: lo :: hi :: x12 :: n :: payload =>
      if (128 <=? Byte.to_N lo) && (Byte.to_N hi <? 128)
         && (Byte.to_N n =? buf_length payload)
      then Some {| payloadType := Byte.to_N lo - 128 + 128 * Byte.to_N hi;
                   payload := payload |}
      else None
  | _ => None
  end.

(** Payloads in a toy encoding: a symbol list is one octet per symbol, its
    identifier, which is also the one letter of its name; a spot event is the
    three octets of identifier, bid and ask; an error is the text of its
    code. *)
Definition decode_symbols (payload : Buffer) : option SymbolsListRes :=
  Some {| symbol :=
            map (fun b => {| symbolId := Byte.to_N b;
                             symbolName := string_of_list_byte [b] |})
                payload |}.

Definition decode_spot (payload : Buffer) : option SpotEvent :=
  match payload with
  | [i; b; a] =>
      Some {| spot_symbolName := None; spot_symbolId := Byte.to_N i;
              bid := Some (Byte.to_N b); ask := Some (Byte.to_N a) |}
  | _ => None
  end.

Definition decode_error (payload : Buffer) : option ErrorRes :=
  Some {| errorCode := string_of_list_byte payload; description := None |}.

(** Upper case and trimming, for text in ASCII. *)
Definition upper (c : ascii) : ascii :=
  let n := nat_of_ascii c in
  if ((97 <=? n) && (n <=? 122))%nat then ascii_of_nat (n - 32) else c.

Fixpoint upper_case (s : string) : string :=
  match s with
  | EmptyString => EmptyString
  | String c r => String (upper c) (upper_case r)
  end.

Fixpoint trim_start (s : string) : string :=
  match s with
  | String c r => if Ascii.eqb c " " then trim_start r else s
  | EmptyString => EmptyString
  end.

Fixpoint reversed (acc s : string) : string :=
  match s with
  | EmptyString => acc
  | String c r => reversed (String c acc) r
  end.

Definition trimmed (s : string) : string :=
  reversed EmptyString (trim_start (reversed EmptyString (trim_start s))).

Definition externals : Externals :=
  {| values := published;
     ProtoMessage_decode := decode_envelope;
     SymbolsListRes_decode := decode_symbols;
     SpotEvent_decode := decode_spot;
     ErrorRes_decode := decode_error;
     toUpperCase := upper_case;
     trim := trimmed |}.

(** An envelope as it arrives on the wire. *)
Definition framed (pt : N) (payload : Buffer) : Buffer :=
  match frame_bytes (envelope pt payload) with
  | Some frame => frame
  | None => []
  end.

(** The state in which [startTickStream] begins after a refresh that
    granted the pair (A2, R2). *)
Definition world1 : World :=
  snd (refreshAccessToken (RefreshProperties.world0 [RefreshProperties.granted "A2" "R2"])).

Definition start : Buffer * Client := startTickStream world1.

End Sample.


(** ** Properties of the stream *)

Module FeedProperties.
Import Refresh Feed Framing FramingFacts FeedFacts Sample.

(** A whole handshake on the sample schema: the four responses, the symbol
    list of E and G, and the answer to the question. *)
Definition handshake : list Event :=
  [secureConnect;
   data (framed 2105 []);
   data (framed 2101 []);
   data (framed 2103 [] ++ framed 2115 (list_byte_of_string "EG"));
   answer 0 " e "].

Definition handshake_end : Buffer * Client :=
  Eval vm_compute in
    match run externals start handshake with
    | Ok st => st
    | Uncaught => start
    end.

(** The handshake up to the open question for a symbol. *)
Definition handshake_to_question : list Event :=
  [secureConnect;
   data (framed 2105 []);
   data (framed 2101 []);
   data (framed 2103 [] ++ framed 2115 (list_byte_of_string "EG"))].

Lemma published_distinct : NoDup (known published).
Proof. repeat constructor; cbn; intuition discriminate. Qed.

(** The requests of a trace, in the order sent, and those sent on one
    socket. *)
Definition requests_sent (t : list Obs) : list TypeName :=
  flat_map (fun o => match o with
                     | Sent _ typeName _ => [typeName]
                     | _ => []
                     end) t.

Definition requests_sent_on (k : nat) (t : list Obs) : list TypeName :=
  flat_map (fun o => match o with
                     | Sent k' typeName _ =>
                         if Nat.eqb k' k then [typeName] else []
                     | _ => []
                     end) t.

(** Follows the spec's words (4.4): the requests of the stages in their
    strict linear order. A handshake in that order sends a beginning of this
    list. *)
Definition linear_order : list TypeName :=
  [VersionReq; AppAuthReq; AccountAuthReq; SymbolsListReq; SubscribeSpotsReq].

Definition in_linear_order (requests : list TypeName) : Prop :=
  requests = firstn (length requests) linear_order.

(** C2, as stated, fails: the stages need not occur in the strict linear
    order. An ACCOUNT_AUTH_RES right after the connection makes the client
    send SymbolsListReq although neither VERSION_RES nor
    APPLICATION_AUTH_RES was received and neither AppAuthReq nor
    AccountAuthReq was sent; a second VERSION_RES makes it send AppAuthReq a
    second time; and a question answered after a reconnection makes
    SubscribeSpotsReq the first request on the new socket, before its
    VersionReq. *)
Lemma stages_are_skipped_and_repeated :
  (exists c,
      run externals start [secureConnect; data (framed 2103 [])] = Ok ([], c) /\
      requests_sent (trace c) = [VersionReq; SymbolsListReq] /\
      ~ in_linear_order (requests_sent (trace c)) /\
      ~ In (Recv 2105) (trace c) /\ ~ In (Recv 2101) (trace c)) /\
  (exists c,
      run externals start
          [secureConnect; data (framed 2105 []); data (framed 2105 [])]
      = Ok ([], c) /\
      requests_sent (trace c) = [VersionReq; AppAuthReq; AppAuthReq] /\
      ~ in_linear_order (requests_sent (trace c))) /\
  (exists c,
      run externals start (handshake_to_question
                           ++ [close; timeout; answer 0 "e"; secureConnect])
      = Ok ([], c) /\
      requests_sent_on 1 (trace c) = [SubscribeSpotsReq; VersionReq] /\
      ~ in_linear_order (requests_sent_on 1 (trace c))).
Proof.
  split; [|split].
  - eexists. split; [vm_compute; reflexivity|]. split; [reflexivity|].
    split; [discriminate|]. split; cbn; intuition discriminate.
  - eexists. split; [vm_compute; reflexivity|]. split; [reflexivity|].
    discriminate.
  - eexists. split; [vm_compute; reflexivity|]. split; [reflexivity|].
    discriminate.
Qed.

(** C2, amended. In every run of the stream, whatever arrives and in
    whatever order, each request is sent only after a response of the stage
    before it has been received earlier in the run, on whichever
    connection: AppAuthReq after a VERSION_RES, AccountAuthReq after an
    APPLICATION_AUTH_RES, SymbolsListReq after an ACCOUNT_AUTH_RES and
    SubscribeSpotsReq after a SYMBOLS_LIST_RES; VersionReq itself is sent
    only after a connection is made. Moreover AppAuthReq, AccountAuthReq and
    SymbolsListReq go out one for one with the responses that call for
    them and in the order of these responses: the order of the stages is the
    order in which the responses arrive. *)
Theorem requests_follow_responses :
  forall (ext : Externals) (w : World) (events : list Event)
         (recvBuffer : Buffer) (c : Client),
    run ext (startTickStream w) events = Ok (recvBuffer, c) ->
    (forall before k typeName fields after,
        trace c = before ++ Sent k typeName fields :: after ->
        match typeName with
        | VersionReq => In (Console Connected) before
        | AppAuthReq => In (Recv (PROTO_OA_VERSION_RES (values ext))) before
        | AccountAuthReq =>
            In (Recv (PROTO_OA_APPLICATION_AUTH_RES (values ext))) before
        | SymbolsListReq =>
            In (Recv (PROTO_OA_ACCOUNT_AUTH_RES (values ext))) before
        | SubscribeSpotsReq =>
            In (Recv (PROTO_OA_SYMBOLS_LIST_RES (values ext))) before
        end) /\
    flat_map sync_request (trace c)
    = flat_map (called_for (values ext)) (trace c).
Proof.
  intros ext w events recvBuffer c Hrun. split.
  - intros before k typeName fields after Ht.
    assert (H : orderly (values ext) (snd (startTickStream w))).
    { split; [apply licensed_nil|now left]. }
    apply (run_orderly ext events _ _ H) in Hrun. destruct Hrun as [Hl _].
    specialize (Hl before k typeName fields after Ht).
    destruct typeName; exact Hl.
  - apply (run_mirrored ext events (startTickStream w) (recvBuffer, c));
      [reflexivity|assumption].
Qed.

Lemma requests_follow_responses_witness :
  In (Recv 2115) (firstn 20 (trace (snd handshake_end))) /\
  flat_map sync_request (trace (snd handshake_end))
  = [AppAuthReq; AccountAuthReq; SymbolsListReq].
Proof.
  assert (Hrun : run externals (startTickStream world1) handshake
                 = Ok (fst handshake_end, snd handshake_end))
    by (vm_compute; reflexivity).
  split.
  - refine (proj1 (requests_follow_responses
                     externals world1 handshake
                     (fst handshake_end) (snd handshake_end) Hrun)
                  (firstn 20 (trace (snd handshake_end))) 0%nat SubscribeSpotsReq
                  (subscribe_spots_fields (Some "42"%string) [69])
                  (skipn 21 (trace (snd handshake_end))) _).
    vm_compute. reflexivity.
  - exact (proj2 (requests_follow_responses
                    externals world1 handshake
                    (fst handshake_end) (snd handshake_end) Hrun)).
Defined.

(** The first three octets of a header, as left in [recvBuffer] by a
    connection that drops inside a header. *)
Definition partial : Buffer := [x00; x00; x00].

(** C3, at a failing input. A connection delivers three octets of a header
    and closes; five seconds later [connect] runs. [recvBuffer] is declared
    outside [connect] and nothing empties it, so for every schema and every
    start the new connection begins with the three old octets buffered. What
    the new connection delivers is then cut at the wrong place: in front of
    the frame of a VERSION_RES the loop cuts an empty frame body, which the
    sample decoder refuses, where a fresh buffer gives the response and the
    next request. *)
Theorem reconnect_keeps_partial_frame :
  (forall (ext : Externals) (w : World),
      exists c,
        run ext (startTickStream w) [secureConnect; data partial; close; timeout]
        = Ok (partial, c) /\
        sock c = 1%nat /\ timers c = 0%nat) /\
  on_data record (partial, []) (framed 2105 [])
  = Ok ([x00; x00; x05; x08; xb9; x10; x12; x00], [[]]) /\
  on_data record ([], []) (framed 2105 []) = Ok ([], [envelope 2105 []]) /\
  run externals start
      [secureConnect; data partial; close; timeout;
       secureConnect; data (framed 2105 [])]
  = Uncaught /\
  (exists c,
      run externals start
          [secureConnect; close; timeout;
           secureConnect; data (framed 2105 [])]
      = Ok ([], c) /\
      skipn 7 (trace c)
      = [Recv 2105; Console Version_handshake_complete;
         Sent 1 AppAuthReq
              (app_auth_fields (Some "app"%string) (Some "secret"%string));
         Console (Sent_line AppAuthReq)]).
Proof.
  split; [|split; [|split; [|split]]].
  - intros ext w. eexists. split; [|split]; reflexivity.
  - reflexivity.
  - reflexivity.
  - reflexivity.
  - eexists. split; reflexivity.
Qed.

(** An error response whose code says that the access token has expired. *)
Definition token_expired : Buffer :=
  framed 2142 (list_byte_of_string "OA_AUTH_TOKEN_EXPIRED").

(** C4, as stated, fails: the error that reports an expired token, received
    while the account authentication is awaited, is printed and nothing else
    happens. No request goes to the token endpoint (the only one is that
    made before the stream started), the variables keep their values, and
    when ACCOUNT_AUTH_RES arrives next the following request is sent as if
    no error had been received. *)
Lemma expired_token_is_only_printed :
  exists c,
    run externals start
        [secureConnect; data (framed 2105 []); data (framed 2101 []);
         data token_expired; data (framed 2103 [])]
    = Ok ([], c) /\
    skipn 11 (trace c)
    = [Recv 2142;
       Console (API_Error {| errorCode := "OA_AUTH_TOKEN_EXPIRED";
                             description := None |});
       Recv 2103; Console Account_authenticated;
       Sent 0 SymbolsListReq (symbols_list_fields (Some "42"%string));
       Console (Sent_line SymbolsListReq)] /\
    world c = world1 /\
    length (posted (world c)) = 1%nat /\
    sock c = 0%nat /\ timers c = 0%nat.
Proof. eexists. repeat split. Qed.

(** C4, amended. Whenever an ErrorResponse frame is received, whatever its
    error code and at any point of the handshake, the error is printed with
    its code and description and nothing else is done: no request is sent,
    the socket and the pending reconnections are as before, and the
    variables, the [.env] file and the token endpoint are not touched. No
    run of the stream ever makes a refresh attempt. *)
Theorem error_response_is_only_printed :
  (forall (ext : Externals) (c : Client) (msgBuf : Buffer)
          (wrap : ProtoMessage) (err : ErrorRes),
      NoDup (known (values ext)) ->
      ProtoMessage_decode ext msgBuf = Some wrap ->
      payloadType wrap = PROTO_OA_ERROR_RES (values ext) ->
      ErrorRes_decode ext (payload wrap) = Some err ->
      on_frame ext c msgBuf
      = Ok {| world := world c; sock := sock c; questions := questions c;
              timers := timers c;
              trace := trace c ++ [Recv (payloadType wrap);
                                   Console (API_Error err)] |}) /\
  (forall (ext : Externals) (w : World) (events : list Event)
          (recvBuffer : Buffer) (c : Client),
      run ext (startTickStream w) events = Ok (recvBuffer, c) ->
      world c = w).
Proof.
  split.
  - intros ext c msgBuf wrap err Hd Hdec Hpt Herr.
    destruct (on_frame_cases ext c msgBuf wrap Hd Hdec)
      as (_ & _ & _ & _ & _ & H & _).
    rewrite (H Hpt), Herr. unfold emit, observe.
    cbn [trace world sock questions timers].
    rewrite <- app_assoc. reflexivity.
  - intros ext w events recvBuffer c H.
    apply run_world in H. exact H.
Qed.

Lemma error_response_is_only_printed_witness :
  on_frame externals (snd start)
           (envelope 2142 (list_byte_of_string "OA_AUTH_TOKEN_EXPIRED"))
  = Ok {| world := world1; sock := 0; questions := []; timers := 0;
          trace := [Recv 2142;
                    Console (API_Error
                               {| errorCode := "OA_AUTH_TOKEN_EXPIRED";
                                  description := None |})] |} /\
  world (snd handshake_end) = world1.
Proof.
  split.
  - refine (proj1 error_response_is_only_printed externals (snd start)
                  (envelope 2142 (list_byte_of_string "OA_AUTH_TOKEN_EXPIRED"))
                  {| payloadType := 2142;
                     payload := list_byte_of_string "OA_AUTH_TOKEN_EXPIRED" |}
                  {| errorCode := "OA_AUTH_TOKEN_EXPIRED"; description := None |}
                  published_distinct _ _ _); reflexivity.
  - apply (proj2 error_response_is_only_printed externals world1 handshake
                 (fst handshake_end) (snd handshake_end)).
    vm_compute. reflexivity.
Defined.

(** C5. A frame whose payload type has no case in the [switch] is not a
    failure: a warning with the payload type is printed, nothing is sent, no
    exception escapes, the socket is kept, and the loop goes on with the
    frames behind it exactly as it would without it; a spot event that
    follows is decoded and printed. *)
Theorem unrecognized_payload_is_skipped :
  forall (ext : Externals) (c : Client) (msgBuf : Buffer) (wrap : ProtoMessage),
    ProtoMessage_decode ext msgBuf = Some wrap ->
    ~ In (payloadType wrap) (known (values ext)) ->
    let skipped :=
      {| world := world c; sock := sock c; questions := questions c;
         timers := timers c;
         trace := trace c ++ [Recv (payloadType wrap);
                              Console (Unhandled_payload (payloadType wrap))] |}
    in
    on_frame ext c msgBuf = Ok skipped /\
    (forall frame rest : Buffer,
        frame_bytes msgBuf = Some frame ->
        data_loop (on_frame ext) (frame ++ rest) c
        = data_loop (on_frame ext) rest skipped) /\
    (forall (frame spotBuf spotFrame : Buffer) (spotWrap : ProtoMessage)
            (ev : SpotEvent),
        NoDup (known (values ext)) ->
        frame_bytes msgBuf = Some frame ->
        frame_bytes spotBuf = Some spotFrame ->
        ProtoMessage_decode ext spotBuf = Some spotWrap ->
        payloadType spotWrap = PROTO_OA_SPOT_EVENT (values ext) ->
        SpotEvent_decode ext (payload spotWrap) = Some ev ->
        on_data (on_frame ext) ([], c) (frame ++ spotFrame)
        = Ok ([], {| world := world c; sock := sock c;
                     questions := questions c; timers := timers c;
                     trace := trace c
                              ++ [Recv (payloadType wrap);
                                  Console (Unhandled_payload (payloadType wrap));
                                  Recv (payloadType spotWrap);
                                  Console (Spot_line ev)] |})).
Proof.
  intros ext c msgBuf wrap Hdec Hun skipped.
  assert (Hskip : on_frame ext c msgBuf = Ok skipped).
  { rewrite (on_frame_unknown ext c msgBuf wrap Hdec Hun).
    unfold skipped, observe. cbn [trace world sock questions timers].
    now rewrite <- app_assoc. }
  split; [exact Hskip|]. split.
  - intros frame rest Hf.
    rewrite data_loop_unroll, (next_frame_frame _ _ _ Hf), Hskip.
    reflexivity.
  - intros frame spotBuf spotFrame spotWrap ev Hd Hf Hsf Hsdec Hspt Hev.
    unfold on_data, concat2. cbn [app].
    rewrite data_loop_unroll, (next_frame_frame _ _ _ Hf), Hskip.
    cbn [bind]. rewrite <- (app_nil_r spotFrame).
    rewrite data_loop_unroll, (next_frame_frame _ _ _ Hsf).
    destruct (on_frame_cases ext skipped spotBuf spotWrap Hd Hsdec)
      as (_ & _ & _ & _ & H & _).
    rewrite (H Hspt), Hev. cbn [bind]. rewrite data_loop_unroll.
    cbn [next_frame buf_length length N.of_nat N.ltb N.compare].
    unfold emit, observe, skipped. cbn [trace world sock questions timers].
    now rewrite <- !app_assoc.
Qed.

Lemma unrecognized_payload_is_skipped_witness :
  on_data (on_frame externals) start (framed 9999 [x01] ++ framed 2131 [x45; x01; x02])
  = Ok ([], {| world := world1; sock := 0; questions := []; timers := 0;
               trace := [Recv 9999; Console (Unhandled_payload 9999);
                         Recv 2131;
                         Console (Spot_line {| spot_symbolName := None;
                                               spot_symbolId := 69;
                                               bid := Some 1;
                                               ask := Some 2 |})] |}).
Proof.
  refine (proj2 (proj2 (unrecognized_payload_is_skipped
                          externals (snd start) (envelope 9999 [x01])
                          {| payloadType := 9999; payload := [x01] |} _ _))
                (framed 9999 [x01]) (envelope 2131 [x45; x01; x02])
                (framed 2131 [x45; x01; x02])
                {| payloadType := 2131; payload := [x45; x01; x02] |}
                {| spot_symbolName := None; spot_symbolId := 69;
                   bid := Some 1; ask := Some 2 |}
                _ _ _ _ _ _); try reflexivity.
  - vm_compute. intuition discriminate.
  - exact published_distinct.
Defined.

(** Follows the spec's words (4.4): the handshake waits for the response
    that matches the request just sent. [last_request] is the request sent
    last, and [expected_response] the payload type that answers it, where
    the [switch] has a case for it. *)
Definition last_request (t : list Obs) : option TypeName :=
  fold_left (fun acc o => match o with
                          | Sent _ typeName _ => Some typeName
                          | _ => acc
                          end) t None.

Definition expected_response (V : PayloadTypeValues) (typeName : TypeName)
  : option N :=
  match typeName with
  | VersionReq => Some (PROTO_OA_VERSION_RES V)
  | AppAuthReq => Some (PROTO_OA_APPLICATION_AUTH_RES V)
  | AccountAuthReq => Some (PROTO_OA_ACCOUNT_AUTH_RES V)
  | SymbolsListReq => Some (PROTO_OA_SYMBOLS_LIST_RES V)
  | SubscribeSpotsReq => None
  end.

(** The client just after the connection is made: VersionReq is out and
    VERSION_RES is awaited. *)
Definition awaiting_version : Client :=
  Eval vm_compute in
    match run externals start [secureConnect] with
    | Ok (_, c) => c
    | Uncaught => snd start
    end.

(** C9, as stated, fails: while VERSION_RES is awaited, an
    ACCOUNT_AUTH_RES, which is not the expected response, is not ignored. It
    is taken as the end of the account authentication and SymbolsListReq is
    sent, so that the request sent last is no longer VersionReq. *)
Lemma unexpected_response_is_acted_on :
  last_request (trace awaiting_version) = Some VersionReq /\
  expected_response published VersionReq = Some 2105 /\
  exists c,
    on_frame externals awaiting_version (envelope 2103 []) = Ok c /\
    trace c = trace awaiting_version
              ++ [Recv 2103; Console Account_authenticated;
                  Sent 0 SymbolsListReq (symbols_list_fields (Some "42"%string));
                  Console (Sent_line SymbolsListReq)] /\
    last_request (trace c) = Some SymbolsListReq.
Proof.
  split; [reflexivity|]. split; [reflexivity|].
  eexists. split; [reflexivity|]. split; reflexivity.
Qed.

(** C9, amended. What is done with a received frame depends on its payload
    type (and payload) alone, never on how far the handshake has come: two
    clients with the same variables and socket, whatever was sent and
    received before, do the same with the same frame. VERSION_RES,
    APPLICATION_AUTH_RES and ACCOUNT_AUTH_RES make the next request go out
    in every state, SYMBOLS_LIST_RES opens the question for a symbol in
    every state, and a spot event, an error response and a payload type
    without a case are printed, send nothing and are never fatal. *)
Theorem action_depends_on_payload_type_alone :
  (forall (ext : Externals) (c1 c2 : Client) (msgBuf : Buffer),
      vars (world c1) = vars (world c2) ->
      sock c1 = sock c2 ->
      match on_frame ext c1 msgBuf, on_frame ext c2 msgBuf with
      | Ok c1', Ok c2' =>
          exists out,
            trace c1' = trace c1 ++ out /\ trace c2' = trace c2 ++ out
      | Uncaught, Uncaught => True
      | _, _ => False
      end) /\
  (forall (ext : Externals) (c : Client) (msgBuf : Buffer)
          (wrap : ProtoMessage),
      NoDup (known (values ext)) ->
      ProtoMessage_decode ext msgBuf = Some wrap ->
      let pt := payloadType wrap in
      let V := values ext in
      let v := vars (world c) in
      let received := observe (Recv pt) c in
      (pt = PROTO_OA_VERSION_RES V ->
       on_frame ext c msgBuf
       = Ok (send AppAuthReq
                  (app_auth_fields (CTRADER_CLIENT_ID v)
                                   (CTRADER_CLIENT_SECRET v))
                  (observe (Console Version_handshake_complete) received))) /\
      (pt = PROTO_OA_APPLICATION_AUTH_RES V ->
       on_frame ext c msgBuf
       = Ok (send AccountAuthReq
                  (account_auth_fields (CTRADER_ACCOUNT_ID v)
                                       (CTRADER_ACCESS_TOKEN v))
                  (observe (Console App_authenticated) received))) /\
      (pt = PROTO_OA_ACCOUNT_AUTH_RES V ->
       on_frame ext c msgBuf
       = Ok (send SymbolsListReq
                  (symbols_list_fields (CTRADER_ACCOUNT_ID v))
                  (observe (Console Account_authenticated) received))) /\
      (pt = PROTO_OA_SYMBOLS_LIST_RES V ->
       forall res, SymbolsListRes_decode ext (payload wrap) = Some res ->
       on_frame ext c msgBuf
       = Ok {| world := world c; sock := sock c;
               questions := questions c ++ [symbol res];
               timers := timers c;
               trace := trace c
                        ++ [Recv pt;
                            Console (Received_symbols (length (symbol res)));
                            Wrote_symbols_csv (symbol res);
                            Console Symbols_csv_written;
                            Asked_symbol] |}) /\
      (pt = PROTO_OA_SPOT_EVENT V ->
       forall ev, SpotEvent_decode ext (payload wrap) = Some ev ->
       on_frame ext c msgBuf = Ok (observe (Console (Spot_line ev)) received)) /\
      (pt = PROTO_OA_ERROR_RES V ->
       forall err, ErrorRes_decode ext (payload wrap) = Some err ->
       on_frame ext c msgBuf = Ok (observe (Console (API_Error err)) received)) /\
      (~ In pt (known V) ->
       on_frame ext c msgBuf
       = Ok (observe (Console (Unhandled_payload pt)) received))).
Proof.
  split.
  - intros ext c1 c2 msgBuf Hv Hs. unfold on_frame, dispatch.
    destruct (ProtoMessage_decode ext msgBuf) as [wrap|]; [|exact I].
    repeat match goal with
           | |- context [N.eqb ?a ?b] => destruct (N.eqb a b)
           | |- context [SymbolsListRes_decode ?e ?b] =>
               destruct (SymbolsListRes_decode e b)
           | |- context [SpotEvent_decode ?e ?b] =>
               destruct (SpotEvent_decode e b)
           | |- context [ErrorRes_decode ?e ?b] =>
               destruct (ErrorRes_decode e b)
           end;
      try exact I;
      (eexists; split;
       [ unfold emit, send, observe;
         cbn [trace world sock questions timers];
         rewrite <- ?app_assoc; cbn [app]; reflexivity
       | unfold emit, send, observe;
         cbn [trace world sock questions timers];
         rewrite <- ?app_assoc; cbn [app];
         rewrite <- ?Hv, <- ?Hs; reflexivity ]).
  - intros ext c msgBuf wrap Hd Hdec pt V v received.
    destruct (on_frame_cases ext c msgBuf wrap Hd Hdec)
      as (H1 & H2 & H3 & H4 & H5 & H6 & H7).
    repeat split.
    + exact H1.
    + exact H2.
    + exact H3.
    + intros E res Hres. rewrite (H4 E), Hres.
      unfold emit, observe. cbn [trace world sock questions timers].
      now rewrite <- !app_assoc.
    + intros E ev Hev. now rewrite (H5 E), Hev.
    + intros E err Herr. now rewrite (H6 E), Herr.
    + exact H7.
Qed.

Lemma action_depends_on_payload_type_alone_witness :
  match on_frame externals awaiting_version (envelope 2103 []),
        on_frame externals (snd handshake_end) (envelope 2103 []) with
  | Ok c1', Ok c2' =>
      exists out,
        trace c1' = trace awaiting_version ++ out /\
        trace c2' = trace (snd handshake_end) ++ out
  | Uncaught, Uncaught => True
  | _, _ => False
  end /\
  on_frame externals awaiting_version (envelope 2103 [])
  = Ok (send SymbolsListReq (symbols_list_fields (Some "42"%string))
             (observe (Console Account_authenticated)
                      (observe (Recv 2103) awaiting_version))).
Proof.
  split.
  - apply (proj1 action_depends_on_payload_type_alone externals
                 awaiting_version (snd handshake_end) (envelope 2103 []));
      reflexivity.
  - refine (proj1 (proj2 (proj2
              (proj2 action_depends_on_payload_type_alone externals
                     awaiting_version (envelope 2103 [])
                     {| payloadType := 2103; payload := [] |}
                     published_distinct _))) _); reflexivity.
Defined.

End FeedProperties.


(** * Further properties *)

(** ** Successive sends and what the loop makes of them *)

Module Wire.
Import Framing BufferFacts FramingFacts.

(** What successive calls of [send] write to the socket for the encoded
    envelopes [bodies]: header and envelope, one pair after the other.
    [None] when some envelope is too long for [writeUInt32BE]. *)
Fixpoint wire (bodies : list Buffer) : option Buffer :=
  match bodies with
  | [] => Some []
  | wrapBuf :: more =>
      match frame_bytes wrapBuf, wire more with
      | Some frame, Some stream => Some (frame ++ stream)
      | _, _ => None
      end
  end.

Lemma data_loop_wire bodies : forall stream tail frames,
  wire bodies = Some stream ->
  next_frame tail = None ->
  data_loop record (stream ++ tail) frames = Ok (tail, frames ++ bodies).
Proof.
  induction bodies as [|wrapBuf more IH]; intros stream tail frames Hw Ht.
  - injection Hw as <-. cbn [app].
    rewrite data_loop_unroll, Ht, app_nil_r. reflexivity.
  - cbn [wire] in Hw.
    destruct (frame_bytes wrapBuf) as [frame|] eqn:Hf; [|discriminate].
    destruct (wire more) as [stream'|] eqn:Hm; [|discriminate].
    injection Hw as <-. rewrite <- app_assoc.
    rewrite data_loop_unroll, (next_frame_frame _ _ _ Hf).
    cbn [record bind]. rewrite (IH stream' tail _ eq_refl Ht).
    now rewrite <- app_assoc.
Qed.

(** The loop undoes [send]: when the chunks of a connection are, put
    together, the frames of some envelopes followed by a tail that is not
    yet a whole frame, the listener cuts exactly these envelopes, in the
    order sent, and keeps exactly the tail, however the octets were split
    into chunks. *)
Theorem sent_frames_are_received :
  forall (bodies : list Buffer) (stream tail : Buffer) (chunks : list Buffer),
    wire bodies = Some stream ->
    next_frame tail = None ->
    concat chunks = stream ++ tail ->
    feed record ([], []) chunks = Ok (tail, bodies).
Proof.
  intros bodies stream tail chunks Hw Ht Hc.
  rewrite feed_concat by reflexivity.
  unfold on_data, concat2. cbn [app]. rewrite Hc.
  apply (data_loop_wire bodies stream tail [] Hw Ht).
Qed.

Lemma sent_frames_are_received_witness :
  feed record ([], [])
       [map octet [0; 0]; map octet [0; 2; 7; 9; 0; 0; 0]; map octet [0; 0];
        map octet [0; 0; 1; 5; 0; 0; 0; 9; 1]]
  = Ok (map octet [0; 0; 0; 9; 1],
        [map octet [7; 9]; []; map octet [5]]).
Proof.
  apply (sent_frames_are_received
           [map octet [7; 9]; []; map octet [5]]
           (map octet [0; 0; 0; 2; 7; 9; 0; 0; 0; 0; 0; 0; 0; 1; 5])
           (map octet [0; 0; 0; 9; 1])); reflexivity.
Defined.

(** The frame [send] writes is the envelope behind four octets that read
    back, most significant first, as the length of the envelope; [send]
    cannot frame an envelope of 4294967296 octets or more, and frames every
    shorter one. *)
Theorem frame_is_header_and_envelope :
  forall wrapBuf : Buffer,
    match frame_bytes wrapBuf with
    | Some frame =>
        buf_length wrapBuf < 2 ^ 32 /\
        readUInt32BE frame = Some (buf_length wrapBuf) /\
        buf_length frame = 4 + buf_length wrapBuf /\
        slice_from frame 4 = wrapBuf
    | None => 2 ^ 32 <= buf_length wrapBuf
    end.
Proof.
  intros wrapBuf. unfold frame_bytes.
  destruct (writeUInt32BE (buf_length wrapBuf)) as [header|] eqn:E.
  - destruct (read_written _ _ wrapBuf E) as [Hr Hh].
    unfold writeUInt32BE in E.
    destruct (N.ltb_spec (buf_length wrapBuf) (2 ^ 32)); [|discriminate].
    repeat split; trivial.
    + rewrite buf_length_app. unfold buf_length at 1. lia.
    + unfold slice_from. apply skipn_exact. now rewrite Hh.
  - unfold writeUInt32BE in E.
    destruct (N.ltb_spec (buf_length wrapBuf) (2 ^ 32)); [discriminate|].
    assumption.
Qed.

End Wire.


(** ** Runs of the stream *)

Module Runs.
Import Refresh Feed Framing FramingFacts FeedFacts.

(** The number of ['close'] events and of timers that fire in a run. *)
Definition closes (events : list Event) : nat :=
  length (filter (fun e => match e with close => true | _ => false end) events).

Definition timeouts (events : list Event) : nat :=
  length (filter (fun e => match e with timeout => true | _ => false end)
                 events).

(** How many entries of a trace satisfy a test. *)
Definition count (p : Obs -> bool) (t : list Obs) : nat :=
  length (filter p t).

Definition is_asked (o : Obs) : bool :=
  match o with
  | Asked_symbol => true
  | _ => false
  end.

Definition is_subscribe (o : Obs) : bool :=
  match o with
  | Sent _ SubscribeSpotsReq _ => true
  | _ => false
  end.

Definition is_not_found (o : Obs) : bool :=
  match o with
  | Console (Symbol_not_found _) => true
  | _ => false
  end.

(** The payload a request must carry, given the variables. *)
Definition carries (v : Vars) (o : Obs) : Prop :=
  match o with
  | Sent _ VersionReq fields => fields = version_fields 2 0 0
  | Sent _ AppAuthReq fields =>
      fields = app_auth_fields (CTRADER_CLIENT_ID v) (CTRADER_CLIENT_SECRET v)
  | Sent _ AccountAuthReq fields =>
      fields = account_auth_fields (CTRADER_ACCOUNT_ID v)
                                   (CTRADER_ACCESS_TOKEN v)
  | Sent _ SymbolsListReq fields =>
      fields = symbols_list_fields (CTRADER_ACCOUNT_ID v)
  | Sent _ SubscribeSpotsReq fields =>
      exists id, fields = subscribe_spots_fields (CTRADER_ACCOUNT_ID v) [id]
  | _ => True
  end.

Lemma count_app p t u : count p (t ++ u) = (count p t + count p u)%nat.
Proof. unfold count. now rewrite filter_app, length_app. Qed.

Section WithExternals.

Variable ext : Externals.

Lemma run_app events more st :
  run ext st (events ++ more)
  = (st' <- run ext st events ;; run ext st' more).
Proof.
  revert st. induction events as [|e events IH]; intros st; cbn [run app].
  - reflexivity.
  - destruct (step ext st e) as [st1|]; [|reflexivity]. cbn [bind]. apply IH.
Qed.

(** ['data'] events one after the other are [feed]. *)
Lemma run_data chunks st :
  run ext st (map data chunks) = feed (on_frame ext) st chunks.
Proof.
  revert st. induction chunks as [|chunk more IH]; intros st; cbn [run map feed].
  - reflexivity.
  - destruct st as [recvBuffer c]. cbn [step].
    destruct (on_data (on_frame ext) (recvBuffer, c) chunk) as [st1|];
      [|reflexivity].
    cbn [bind]. apply IH.
Qed.

(** Between two events the buffer never holds a whole frame. *)
Lemma step_settled st e st' :
  next_frame (fst st) = None -> step ext st e = Ok st' ->
  next_frame (fst st') = None.
Proof.
  destruct st as [recvBuffer c], st' as [rest c']. cbn [fst]. intros Hs.
  destruct e as [|chunk|message| | |i a]; cbn [step].
  - now intros [= <- <-].
  - unfold on_data. apply data_loop_stable.
  - now intros [= <- <-].
  - now intros [= <- <-].
  - destruct (timers c); now intros [= <- <-].
  - destruct (nth_error (questions c) i); now intros [= <- <-].
Qed.

Lemma run_settled events st st' :
  next_frame (fst st) = None -> run ext st events = Ok st' ->
  next_frame (fst st') = None.
Proof.
  revert st. induction events as [|e more IH]; intros st Hs; cbn [run].
  - now intros [= <-].
  - destruct (step ext st e) as [st1|] eqn:E; [|discriminate]. cbn [bind].
    apply IH. eapply step_settled; eassumption.
Qed.

(** A frame changes neither the socket nor the timers. *)
Lemma on_frame_sock c msgBuf c' :
  on_frame ext c msgBuf = Ok c' -> sock c' = sock c /\ timers c' = timers c.
Proof.
  unfold on_frame, dispatch.
  destruct (ProtoMessage_decode ext msgBuf) as [wrap|]; [|discriminate].
  repeat match goal with
         | |- context [N.eqb ?a ?b] => destruct (N.eqb a b)
         | |- context [match ?d with Some _ => _ | None => _ end] =>
             destruct d
         end;
    try discriminate; now intros [= <-].
Qed.

Lemma step_sockets st e st' :
  step ext st e = Ok st' ->
  (sock (snd st') + timers (snd st')
   = sock (snd st) + timers (snd st) + closes [e])%nat /\
  (sock (snd st') = sock (snd st) + timeouts [e]
   \/ (timers (snd st) = 0 /\ sock (snd st') = sock (snd st)))%nat.
Proof.
  destruct st as [recvBuffer c], st' as [rest c']. cbn [snd].
  destruct e as [|chunk|message| | |i a]; cbn [step closes timeouts filter length].
  - intros [= <- <-]. cbn. lia.
  - unfold on_data. intros H.
    apply (data_loop_invariant _ (on_frame ext)
             (fun s => sock s = sock c /\ timers s = timers c)) in H.
    + lia.
    + intros s msgBuf s' [Hs Ht] Hf. apply on_frame_sock in Hf. lia.
    + split; reflexivity.
  - intros [= <- <-]. cbn. lia.
  - intros [= <- <-]. cbn. lia.
  - destruct (timers c) as [|n] eqn:Et; intros [= <- <-]; cbn; lia.
  - destruct (nth_error (questions c) i); intros [= <- <-]; [|lia].
    unfold answered. destruct (find _ _); cbn; lia.
Qed.

Lemma run_sockets events st st' :
  run ext st events = Ok st' ->
  (sock (snd st') + timers (snd st')
   = sock (snd st) + timers (snd st) + closes events)%nat /\
  (sock (snd st') <= sock (snd st) + timeouts events)%nat.
Proof.
  revert st. induction events as [|e more IH]; intros st; cbn [run].
  - intros [= <-]. cbn. lia.
  - destruct (step ext st e) as [st1|] eqn:E; [|discriminate]. cbn [bind].
    intros H. apply IH in H. apply step_sockets in E.
    change (closes (e :: more)) with (closes ([e] ++ more)).
    change (timeouts (e :: more)) with (timeouts ([e] ++ more)).
    unfold closes, timeouts in *. rewrite !filter_app, !length_app. lia.
Qed.

(** The requests in the trace carry what the variables hold. *)
Definition furnished (c : Client) : Prop :=
  Forall (carries (vars (world c))) (trace c).

Lemma furnished_observe o c :
  carries (vars (world c)) o -> furnished c -> furnished (observe o c).
Proof.
  intros Ho Hc. unfold furnished. cbn [observe trace world].
  apply Forall_app. split; [assumption|]. now constructor.
Qed.

Lemma on_frame_furnished c msgBuf c' :
  furnished c -> on_frame ext c msgBuf = Ok c' -> furnished c'.
Proof.
  intros Hc. unfold on_frame, dispatch.
  destruct (ProtoMessage_decode ext msgBuf) as [wrap|]; [|discriminate].
  repeat match goal with
         | |- context [N.eqb ?a ?b] => destruct (N.eqb a b)
         | |- context [match ?d with Some _ => _ | None => _ end] =>
             destruct d
         end;
    try discriminate; intros [= <-]; unfold emit, send;
    repeat (apply furnished_observe; [exact I || reflexivity|]);
    try assumption.
  unfold furnished in *. cbn [trace world observe] in *.
  rewrite <- !app_assoc. apply Forall_app. split; [assumption|].
  repeat constructor.
Qed.

Lemma step_furnished st e st' :
  furnished (snd st) -> step ext st e = Ok st' -> furnished (snd st').
Proof.
  destruct st as [recvBuffer c], st' as [rest c']. cbn [snd]. intros Hc.
  destruct e as [|chunk|message| | |i a]; cbn [step].
  - intros [= <- <-]. unfold send.
    repeat (apply furnished_observe; [exact I || reflexivity|]). assumption.
  - unfold on_data. apply data_loop_invariant; [|assumption].
    intros s msgBuf s'. apply on_frame_furnished.
  - intros [= <- <-]. now apply furnished_observe.
  - intros [= <- <-]. unfold furnished in *. cbn [trace world observe].
    apply Forall_app. split; [assumption|]. now repeat constructor.
  - destruct (timers c); now intros [= <- <-].
  - destruct (nth_error (questions c) i); intros [= <- <-]; [|assumption].
    unfold answered. destruct (find _ _) as [m|].
    + unfold send. apply furnished_observe; [exact I|].
      apply furnished_observe; [|exact Hc]. cbn. now exists (symbolId m).
    + apply furnished_observe; [exact I|exact Hc].
Qed.

Lemma run_furnished events st st' :
  furnished (snd st) -> run ext st events = Ok st' -> furnished (snd st').
Proof.
  revert st. induction events as [|e more IH]; intros st Hs; cbn [run].
  - now intros [= <-].
  - destruct (step ext st e) as [st1|] eqn:E; [|discriminate]. cbn [bind].
    apply IH. eapply step_furnished; eassumption.
Qed.

(** Every question asked is open, or was answered once. *)
Definition accounted (c : Client) : Prop :=
  count is_asked (trace c)
  = (length (questions c) + count is_subscribe (trace c)
     + count is_not_found (trace c))%nat.

Lemma on_frame_accounted c msgBuf c' :
  accounted c -> on_frame ext c msgBuf = Ok c' -> accounted c'.
Proof.
  unfold accounted. intros Hc. unfold on_frame, dispatch.
  destruct (ProtoMessage_decode ext msgBuf) as [wrap|]; [|discriminate].
  repeat match goal with
         | |- context [N.eqb ?a ?b] => destruct (N.eqb a b)
         | |- context [match ?d with Some _ => _ | None => _ end] =>
             destruct d
         end;
    try discriminate; intros [= <-]; unfold emit, send, observe;
    cbn [trace questions]; rewrite ?length_app, !count_app; cbn; lia.
Qed.

Lemma step_accounted st e st' :
  accounted (snd st) -> step ext st e = Ok st' -> accounted (snd st').
Proof.
  destruct st as [recvBuffer c], st' as [rest c']. cbn [snd].
  unfold accounted at 1. intros Hc.
  destruct e as [|chunk|message| | |i a]; cbn [step].
  - intros [= <- <-]. unfold accounted, send, observe. cbn [trace questions].
    rewrite !count_app. cbn. lia.
  - unfold on_data. apply data_loop_invariant; [|assumption].
    intros s msgBuf s'. apply on_frame_accounted.
  - intros [= <- <-]. unfold accounted, observe. cbn [trace questions].
    rewrite !count_app. cbn. lia.
  - intros [= <- <-]. unfold accounted, observe. cbn [trace questions].
    rewrite !count_app. cbn. lia.
  - destruct (timers c); now intros [= <- <-].
  - destruct (nth_error (questions c) i) as [all|] eqn:E;
      intros [= <- <-]; [|assumption].
    assert (Hlen : (length (firstn i (questions c) ++ skipn (S i) (questions c))
                    + 1 = length (questions c))%nat).
    { assert (i < length (questions c))%nat
        by (apply nth_error_Some; congruence).
      rewrite length_app, length_firstn, length_skipn. lia. }
    unfold accounted, answered. destruct (find _ _);
      unfold send, observe; cbn [trace questions];
      rewrite !count_app;
      cbn [count filter is_asked is_subscribe is_not_found length];
      match goal with
      | |- context [length (firstn i (questions c) ++ ?x)] =>
          change x with (skipn (S i) (questions c))
      end;
      lia.
Qed.

Lemma run_accounted events st st' :
  accounted (snd st) -> run ext st events = Ok st' -> accounted (snd st').
Proof.
  revert st. induction events as [|e more IH]; intros st Hs; cbn [run].
  - now intros [= <-].
  - destruct (step ext st e) as [st1|] eqn:E; [|discriminate]. cbn [bind].
    apply IH. eapply step_accounted; eassumption.
Qed.

End WithExternals.

(** Whatever has happened before, the client cannot tell how the octets of
    a connection were split into ['data'] events: the chunks one by one
    leave the same buffer, the same trace and the same open questions as
    their concatenation in one event, and fail when it fails. *)
Theorem chunking_is_unobservable :
  forall (ext : Externals) (w : World) (events : list Event)
         (st : Buffer * Client) (chunks : list Buffer),
    run ext (startTickStream w) events = Ok st ->
    run ext st (map data chunks) = step ext st (data (concat chunks)).
Proof.
  intros ext w events st chunks Hrun.
  apply run_settled in Hrun; [|reflexivity].
  rewrite run_data. destruct st as [recvBuffer c]. cbn [step fst] in *.
  now apply feed_concat.
Qed.

(** The state after the connection is made, on the sample schema. *)
Definition connected : Buffer * Client :=
  Eval vm_compute in
    match run Sample.externals Sample.start [secureConnect] with
    | Ok st => st
    | Uncaught => Sample.start
    end.

Lemma chunking_is_unobservable_witness :
  run Sample.externals connected
      (map data [[x00; x00]; [x00; x05; x08; xb9]; [x10; x12; x00; x00]])
  = step Sample.externals connected
         (data (concat [[x00; x00]; [x00; x05; x08; xb9]; [x10; x12; x00; x00]])).
Proof.
  apply (chunking_is_unobservable Sample.externals Sample.world1
                                  [secureConnect]).
  vm_compute. reflexivity.
Defined.

(** Sockets are created only by the timers that ['close'] sets: at any
    point of a run, the number of reconnections made plus the number still
    pending is the number of ['close'] events, and no more reconnections
    were made than timers have fired. *)
Theorem reconnections_follow_closes :
  forall (ext : Externals) (w : World) (events : list Event)
         (recvBuffer : Buffer) (c : Client),
    run ext (startTickStream w) events = Ok (recvBuffer, c) ->
    (sock c + timers c = closes events)%nat /\
    (sock c <= timeouts events)%nat.
Proof.
  intros ext w events recvBuffer c H.
  apply run_sockets in H. cbn [snd startTickStream sock timers] in H. lia.
Qed.

Lemma reconnections_follow_closes_witness :
  exists c,
    run Sample.externals Sample.start
        [secureConnect; close; timeout; secureConnect; close]
    = Ok ([], c) /\
    (sock c + timers c = 2)%nat /\ (sock c <= 1)%nat.
Proof.
  eexists. split; [vm_compute; reflexivity|].
  apply (reconnections_follow_closes
           Sample.externals Sample.world1
           [secureConnect; close; timeout; secureConnect; close] []).
  vm_compute. reflexivity.
Defined.

(** A frame is fatal exactly when it cannot be decoded: the envelope, or
    the payload of a symbol list, a spot event or an error response. Then
    the listener throws at that frame: what follows it in the chunk is not
    processed, and neither is any later event. No other frame makes the
    listener throw. *)
Theorem undecodable_frame_is_fatal :
  (forall (ext : Externals) (c : Client) (msgBuf : Buffer),
      NoDup (known (values ext)) ->
      (on_frame ext c msgBuf = Uncaught <->
       ProtoMessage_decode ext msgBuf = None \/
       exists wrap,
         ProtoMessage_decode ext msgBuf = Some wrap /\
         ((payloadType wrap = PROTO_OA_SYMBOLS_LIST_RES (values ext) /\
           SymbolsListRes_decode ext (payload wrap) = None) \/
          (payloadType wrap = PROTO_OA_SPOT_EVENT (values ext) /\
           SpotEvent_decode ext (payload wrap) = None) \/
          (payloadType wrap = PROTO_OA_ERROR_RES (values ext) /\
           ErrorRes_decode ext (payload wrap) = None)))) /\
  (forall (ext : Externals) (c : Client) (msgBuf frame rest : Buffer)
          (more : list Event),
      frame_bytes msgBuf = Some frame ->
      on_frame ext c msgBuf = Uncaught ->
      run ext ([], c) (data (frame ++ rest) :: more) = Uncaught).
Proof.
  split.
  - intros ext c msgBuf Hd.
    destruct (ProtoMessage_decode ext msgBuf) as [wrap|] eqn:Hdec.
    + destruct (on_frame_cases ext c msgBuf wrap Hd Hdec)
        as (H1 & H2 & H3 & H4 & H5 & H6 & H7).
      split.
      * intros Hu. right. exists wrap. split; [reflexivity|].
        destruct (N.eq_dec (payloadType wrap)
                           (PROTO_OA_VERSION_RES (values ext))) as [E|N1];
          [rewrite (H1 E) in Hu; discriminate|].
        destruct (N.eq_dec (payloadType wrap)
                           (PROTO_OA_APPLICATION_AUTH_RES (values ext)))
          as [E|N2]; [rewrite (H2 E) in Hu; discriminate|].
        destruct (N.eq_dec (payloadType wrap)
                           (PROTO_OA_ACCOUNT_AUTH_RES (values ext)))
          as [E|N3]; [rewrite (H3 E) in Hu; discriminate|].
        destruct (N.eq_dec (payloadType wrap)
                           (PROTO_OA_SYMBOLS_LIST_RES (values ext)))
          as [E|N4].
        { left. split; [exact E|]. rewrite (H4 E) in Hu.
          now destruct (SymbolsListRes_decode ext (payload wrap)). }
        destruct (N.eq_dec (payloadType wrap)
                           (PROTO_OA_SPOT_EVENT (values ext))) as [E|N5].
        { right. left. split; [exact E|]. rewrite (H5 E) in Hu.
          now destruct (SpotEvent_decode ext (payload wrap)). }
        destruct (N.eq_dec (payloadType wrap)
                           (PROTO_OA_ERROR_RES (values ext))) as [E|N6].
        { right. right. split; [exact E|]. rewrite (H6 E) in Hu.
          now destruct (ErrorRes_decode ext (payload wrap)). }
        rewrite H7 in Hu; [discriminate|].
        cbn. intuition congruence.
      * intros [Hn|(wrap' & Hw & Hcase)]; [discriminate|].
        injection Hw as <-.
        destruct Hcase as [[E Hp]|[[E Hp]|[E Hp]]].
        -- now rewrite (H4 E), Hp.
        -- now rewrite (H5 E), Hp.
        -- now rewrite (H6 E), Hp.
    + split; [now left|]. intros _. unfold on_frame. now rewrite Hdec.
  - intros ext c msgBuf frame rest more Hf Hu.
    cbn [run step]. unfold on_data, concat2. cbn [app].
    rewrite data_loop_unroll, (next_frame_frame _ _ _ Hf), Hu. reflexivity.
Qed.

Lemma undecodable_frame_is_fatal_witness :
  (on_frame Sample.externals (snd connected) [x08; xb9] = Uncaught <->
   Sample.decode_envelope [x08; xb9] = None \/
   exists wrap,
     Sample.decode_envelope [x08; xb9] = Some wrap /\
     ((payloadType wrap = 2115 /\ Sample.decode_symbols (payload wrap) = None) \/
      (payloadType wrap = 2131 /\ Sample.decode_spot (payload wrap) = None) \/
      (payloadType wrap = 2142 /\ Sample.decode_error (payload wrap) = None))) /\
  run Sample.externals ([], snd connected)
      [data ([x00; x00; x00; x02; x08; xb9] ++ Sample.framed 2105 []);
       data (Sample.framed 2105 [])]
  = Uncaught.
Proof.
  split.
  - apply (proj1 undecodable_frame_is_fatal Sample.externals (snd connected)
                 [x08; xb9]).
    repeat constructor; cbn; intuition discriminate.
  - apply (proj2 undecodable_frame_is_fatal Sample.externals (snd connected)
                 [x08; xb9] [x00; x00; x00; x02; x08; xb9]);
      reflexivity.
Defined.

(** The program refreshes the token and then starts the stream. After a
    refresh that returned, every request of every run carries what the
    variables held when the stream started: the client id and secret, the
    account id, and as access token the [access_token] of the endpoint's
    answer, whatever the [.env] file or the variable held before. *)
Theorem requests_carry_the_refreshed_token :
  forall (ext : Externals) (w : World) (res : Response)
         (answers : list Response) (token : TokenData) (content : string)
         (events : list Event) (recvBuffer : Buffer) (c : Client),
    authority w = res :: answers ->
    ok res = true ->
    json res = Some token ->
    env_file w = Some content ->
    run ext (startTickStream (snd (refreshAccessToken w))) events
    = Ok (recvBuffer, c) ->
    forall before k typeName fields after,
      trace c = before ++ Sent k typeName fields :: after ->
      match typeName with
      | VersionReq => fields = version_fields 2 0 0
      | AppAuthReq =>
          fields = app_auth_fields (CTRADER_CLIENT_ID (vars w))
                                   (CTRADER_CLIENT_SECRET (vars w))
      | AccountAuthReq =>
          fields = account_auth_fields (CTRADER_ACCOUNT_ID (vars w))
                                       (access_token token)
      | SymbolsListReq =>
          fields = symbols_list_fields (CTRADER_ACCOUNT_ID (vars w))
      | SubscribeSpotsReq =>
          exists id,
            fields = subscribe_spots_fields (CTRADER_ACCOUNT_ID (vars w)) [id]
      end.
Proof.
  intros ext w res answers token content events recvBuffer c
         Ha Hok Hj He Hrun before k typeName fields after Ht.
  set (w' := snd (refreshAccessToken w)) in *.
  assert (Hv : vars w'
               = {| CTRADER_CLIENT_ID := CTRADER_CLIENT_ID (vars w);
                    CTRADER_CLIENT_SECRET := CTRADER_CLIENT_SECRET (vars w);
                    CTRADER_ACCESS_TOKEN := access_token token;
                    CTRADER_REFRESH_TOKEN := CTRADER_REFRESH_TOKEN (vars w);
                    CTRADER_ACCOUNT_ID := CTRADER_ACCOUNT_ID (vars w) |}).
  { subst w'. unfold refreshAccessToken, fetch.
    rewrite Ha, Hok, Hj. cbn. rewrite He. reflexivity. }
  pose proof (run_world ext events _ _ Hrun) as Hw. cbn [snd] in Hw.
  apply (run_furnished ext events (startTickStream w') (recvBuffer, c)) in Hrun;
    [|constructor].
  unfold furnished in Hrun. cbn [snd] in Hrun.
  rewrite Ht in Hrun. apply Forall_app in Hrun as [_ Hrun].
  apply Forall_cons_iff in Hrun as [Hrun _].
  change (world c = w') in Hw. rewrite Hw, Hv in Hrun.
  destruct typeName; exact Hrun.
Qed.

(** A run up to the request for the account authentication, and its end. *)
Definition to_account_auth : list Event :=
  [secureConnect; data (Sample.framed 2105 []); data (Sample.framed 2101 [])].

Definition at_account_auth : Buffer * Client :=
  Eval vm_compute in
    match run Sample.externals Sample.start to_account_auth with
    | Ok st => st
    | Uncaught => Sample.start
    end.

Lemma requests_carry_the_refreshed_token_witness :
  account_auth_fields (Some "42"%string) (Some "A2"%string)
  = account_auth_fields
      (CTRADER_ACCOUNT_ID RefreshProperties.vars0)
      (access_token {| access_token := Some "A2"%string;
                       refresh_token := Some "R2"%string |}).
Proof.
  refine (requests_carry_the_refreshed_token
            Sample.externals
            (RefreshProperties.world0 [RefreshProperties.granted "A2" "R2"])
            (RefreshProperties.granted "A2" "R2") []
            {| access_token := Some "A2"%string;
               refresh_token := Some "R2"%string |}
            RefreshProperties.env0 to_account_auth
            (fst at_account_auth) (snd at_account_auth)
            eq_refl eq_refl eq_refl eq_refl _
            (firstn 9 (trace (snd at_account_auth))) 0%nat AccountAuthReq
            (account_auth_fields (Some "42"%string) (Some "A2"%string))
            (skipn 10 (trace (snd at_account_auth))) _);
    vm_compute; reflexivity.
Defined.

(** Answering a question closes it, whatever the answer. The answer is
    trimmed and put in upper case and compared with the names, in upper
    case, of the symbols the question was asked for: the first symbol that
    matches is subscribed to, alone, on the current socket; when none
    matches, the answer is printed as not found, nothing is sent and the
    question is not asked again. *)
Theorem answer_subscribes_to_first_match :
  forall (ext : Externals) (recvBuffer : Buffer) (c : Client)
         (i : nat) (a : string) (all : list Symbol),
    nth_error (questions c) i = Some all ->
    let sym := toUpperCase ext (trim ext a) in
    exists c',
      step ext (recvBuffer, c) (answer i a) = Ok (recvBuffer, c') /\
      (length (questions c') + 1 = length (questions c))%nat /\
      sock c' = sock c /\ timers c' = timers c /\ world c' = world c /\
      ((exists earlier m later,
           all = earlier ++ m :: later /\
           toUpperCase ext (symbolName m) = sym /\
           (forall s, In s earlier -> toUpperCase ext (symbolName s) <> sym) /\
           trace c'
           = trace c
             ++ [Sent (sock c) SubscribeSpotsReq
                      (subscribe_spots_fields
                         (CTRADER_ACCOUNT_ID (vars (world c))) [symbolId m]);
                 Console (Sent_line SubscribeSpotsReq)]) \/
       ((forall s, In s all -> toUpperCase ext (symbolName s) <> sym) /\
        trace c' = trace c ++ [Console (Symbol_not_found sym)])).
Proof.
  intros ext recvBuffer c i a all Hq sym.
  assert (Hlen : (length (firstn i (questions c) ++ skipn (S i) (questions c))
                  + 1 = length (questions c))%nat).
  { assert (i < length (questions c))%nat
      by (apply nth_error_Some; congruence).
    rewrite length_app, length_firstn, length_skipn. lia. }
  cbn [step]. rewrite Hq. unfold answered. fold sym.
  assert (Hfind : forall l : list Symbol,
             (exists earlier m later,
                 l = earlier ++ m :: later /\
                 toUpperCase ext (symbolName m) = sym /\
                 (forall s, In s earlier ->
                            toUpperCase ext (symbolName s) <> sym) /\
                 find (fun s => String.eqb (toUpperCase ext (symbolName s)) sym) l
                 = Some m) \/
             ((forall s, In s l -> toUpperCase ext (symbolName s) <> sym) /\
              find (fun s => String.eqb (toUpperCase ext (symbolName s)) sym) l
              = None)).
  { induction l as [|s l IH].
    - right. split; [intros s []|reflexivity].
    - cbn [find].
      destruct (String.eqb_spec (toUpperCase ext (symbolName s)) sym) as [E|N].
      + left. exists [], s, l. repeat split; trivial. intros s' [].
      + destruct IH as [(earlier & m & later & -> & Hm & He & Hf)|[Hn Hf]].
        * left. exists (s :: earlier), m, later. repeat split; trivial.
          intros s' [<-|Hin]; [assumption|now apply He].
        * right. split; [|assumption].
          intros s' [<-|Hin]; [assumption|now apply Hn]. }
  destruct (Hfind all) as [(earlier & m & later & Hall & Hm & He & ->)|[Hn ->]].
  - eexists. split; [reflexivity|].
    unfold send, observe. cbn [questions sock timers world trace].
    repeat split; trivial.
    left. exists earlier, m, later. repeat split; trivial.
    now rewrite <- app_assoc.
  - eexists. split; [reflexivity|].
    unfold observe. cbn [questions sock timers world trace].
    repeat split; trivial. now right.
Qed.

(** A client with one open question, for the symbols E and G. *)
Definition asked : Client :=
  Eval vm_compute in
    match step Sample.externals at_account_auth
               (data (Sample.framed 2115 (list_byte_of_string "EG"))) with
    | Ok (_, c) => c
    | Uncaught => snd at_account_auth
    end.

Lemma answer_subscribes_to_first_match_witness :
  exists c',
    step Sample.externals ([], asked) (answer 0 " g ") = Ok ([], c') /\
    (length (questions c') + 1 = length (questions asked))%nat /\
    sock c' = sock asked /\ timers c' = timers asked /\
    world c' = world asked /\
    ((exists earlier m later,
         [ {| symbolId := 69; symbolName := "E" |};
           {| symbolId := 71; symbolName := "G" |} ]
         = earlier ++ m :: later /\
         Sample.upper_case (symbolName m) = "G"%string /\
         (forall s, In s earlier ->
                    Sample.upper_case (symbolName s) <> "G"%string) /\
         trace c'
         = trace asked
           ++ [Sent 0 SubscribeSpotsReq
                    (subscribe_spots_fields (Some "42"%string) [symbolId m]);
               Console (Sent_line SubscribeSpotsReq)]) \/
     ((forall s,
          In s [ {| symbolId := 69; symbolName := "E" |};
                 {| symbolId := 71; symbolName := "G" |} ] ->
          Sample.upper_case (symbolName s) <> "G"%string) /\
      trace c' = trace asked ++ [Console (Symbol_not_found "G")])).
Proof.
  apply (answer_subscribes_to_first_match
           Sample.externals [] asked 0 " g "
           [ {| symbolId := 69; symbolName := "E" |};
             {| symbolId := 71; symbolName := "G" |} ]).
  reflexivity.
Defined.



(** At any point of a run, every question asked is still open or was
    answered exactly once, by a subscription or by a not-found message:
    subscriptions are sent only in answer to a question, and at most one for
    each symbol list received. *)
Theorem questions_are_accounted_for :
  forall (ext : Externals) (w : World) (events : list Event)
         (recvBuffer : Buffer) (c : Client),
    run ext (startTickStream w) events = Ok (recvBuffer, c) ->
    count is_asked (trace c)
    = (length (questions c) + count is_subscribe (trace c)
       + count is_not_found (trace c))%nat.
Proof.
  intros ext w events recvBuffer c H.
  apply (run_accounted ext events (startTickStream w) (recvBuffer, c));
    [reflexivity|assumption].
Qed.

Lemma questions_are_accounted_for_witness :
  exists c,
    run Sample.externals Sample.start
        (to_account_auth
         ++ [data (Sample.framed 2115 (list_byte_of_string "EG"));
             data (Sample.framed 2115 (list_byte_of_string "E"));
             answer 1 "x"; answer 0 "e";
             data (Sample.framed 2115 [])])
    = Ok ([], c) /\
    count is_asked (trace c)
    = (length (questions c) + count is_subscribe (trace c)
       + count is_not_found (trace c))%nat /\
    count is_asked (trace c) = 3%nat /\ length (questions c) = 1%nat.
Proof.
  eexists. split; [vm_compute; reflexivity|]. split; [|split; reflexivity].
  apply (questions_are_accounted_for
           Sample.externals Sample.world1
           (to_account_auth
            ++ [data (Sample.framed 2115 (list_byte_of_string "EG"));
                data (Sample.framed 2115 (list_byte_of_string "E"));
                answer 1 "x"; answer 0 "e";
                data (Sample.framed 2115 [])])
           []).
  vm_compute. reflexivity.
Defined.

End Runs.


(** ** The [.env] file across a refresh *)

Module EnvFile.
Import Refresh.

(** No line feed occurs in the text. *)
Fixpoint newline_free (s : string) : bool :=
  match s with
  | EmptyString => true
  | String c r => negb (Ascii.eqb c (ascii_of_nat 10)) && newline_free r
  end.

(** The five keys, in the order [refreshAccessToken] writes them. *)
Definition keys : list string :=
  ["CTRADER_CLIENT_ID"; "CTRADER_CLIENT_SECRET"; "CTRADER_ACCESS_TOKEN";
   "CTRADER_REFRESH_TOKEN"; "CTRADER_ACCOUNT_ID"]%string.

(** The values [refreshAccessToken] passes to [update] for the five keys. *)
Definition written (v : Vars) (token : TokenData) : list (option string) :=
  [CTRADER_CLIENT_ID v; CTRADER_CLIENT_SECRET v; access_token token;
   refresh_token token; CTRADER_ACCOUNT_ID v].

Lemma newline_free_app a b :
  newline_free (a ++ b) = newline_free a && newline_free b.
Proof.
  induction a as [|c a IH]; cbn [append newline_free]; [reflexivity|].
  rewrite IH. now rewrite andb_assoc.
Qed.

Lemma split_lines_free s : newline_free s = true -> split_lines s = [s].
Proof.
  induction s as [|c s IH]; cbn [newline_free split_lines]; [reflexivity|].
  intros H. apply andb_prop in H as [Hc Hs].
  apply negb_true_iff in Hc. rewrite Hc, (IH Hs). reflexivity.
Qed.

Lemma split_lines_app a b :
  newline_free a = true ->
  split_lines (a ++ newline ++ b) = a :: split_lines b.
Proof.
  induction a as [|c a IH]; cbn [newline_free append]; intros H.
  - reflexivity.
  - apply andb_prop in H as [Hc Ha]. apply negb_true_iff in Hc.
    cbn [split_lines]. rewrite Hc, (IH Ha). reflexivity.
Qed.

(** The lines [split] gives hold no line feed. *)
Lemma lines_newline_free s :
  Forall (fun l => newline_free l = true) (split_lines s).
Proof.
  induction s as [|c s IH]; cbn [split_lines].
  - now repeat constructor.
  - destruct (Ascii.eqb c (ascii_of_nat 10)) eqn:Hc.
    + now constructor.
    + destruct (split_lines s) as [|l ls].
      { constructor; [|constructor]. cbn [newline_free]. now rewrite Hc. }
      inversion IH as [|? ? Hl Hls]; subst. constructor; [|assumption].
      cbn [newline_free]. now rewrite Hc, Hl.
Qed.

(** [split] undoes [join] on lines without line feed, and [join] undoes
    [split]. *)
Lemma split_concat ls :
  ls <> [] -> Forall (fun l => newline_free l = true) ls ->
  split_lines (String.concat newline ls) = ls.
Proof.
  induction ls as [|x [|y ls] IH]; intros Hne Hall.
  - contradiction.
  - cbn [String.concat]. apply split_lines_free. now inversion Hall.
  - inversion Hall as [|? ? Hx Hrest]; subst.
    change (String.concat newline (x :: y :: ls))
      with (x ++ newline ++ String.concat newline (y :: ls))%string.
    rewrite (split_lines_app _ _ Hx), IH; [reflexivity|discriminate|assumption].
Qed.

Lemma concat_split s : String.concat newline (split_lines s) = s.
Proof.
  induction s as [|c s IH]; cbn [split_lines]; [reflexivity|].
  destruct (Ascii.eqb_spec c (ascii_of_nat 10)) as [->|Hc].
  - destruct (split_lines s) as [|l ls] eqn:E.
    + cbn in IH. now subst.
    + change (String.concat newline (EmptyString :: l :: ls))
        with (newline ++ String.concat newline (l :: ls))%string.
      rewrite IH. reflexivity.
  - destruct (split_lines s) as [|l [|l' ls]] eqn:E.
    + cbn in IH. now subst.
    + cbn in *. now subst.
    + change (String.concat newline (String c l :: l' :: ls))
        with (String c (l ++ newline ++ String.concat newline (l' :: ls)))%string.
      change (String.concat newline (l :: l' :: ls))
        with (l ++ newline ++ String.concat newline (l' :: ls))%string in IH.
      now rewrite IH.
Qed.

Lemma prefix_app k x : prefix k (k ++ x) = true.
Proof.
  induction k as [|c k IH]; cbn [prefix append].
  - now destruct x.
  - destruct (ascii_dec c c); [assumption|contradiction].
Qed.

(** What [update] gives is empty, or a line that starts with the key. *)
Lemma update_prefix lines k v :
  printed (update lines k v) = EmptyString
  \/ prefix k (printed (update lines k v)) = true.
Proof.
  unfold update. destruct (truthy v).
  - right. cbn [printed]. apply prefix_app.
  - destruct (find _ lines) as [l|] eqn:E; [|now left].
    right. apply find_some in E as [_ E]. exact E.
Qed.

Lemma update_newline_free content k v :
  newline_free k = true ->
  (truthy v = true -> newline_free (printed v) = true) ->
  newline_free (printed (update (split_lines content) k v)) = true.
Proof.
  intros Hk Hv. unfold update. destruct (truthy v).
  - cbn [printed]. rewrite !newline_free_app, Hk, (Hv eq_refl). reflexivity.
  - destruct (find _ _) as [l|] eqn:E; [|reflexivity].
    apply find_some in E as [E _]. cbn [printed].
    pose proof (lines_newline_free content) as H.
    rewrite Forall_forall in H. now apply H.
Qed.

(** The lines of the file a refresh that returns has written. *)
Lemma rewritten_lines w res answers token content :
  authority w = res :: answers ->
  ok res = true ->
  json res = Some token ->
  env_file w = Some content ->
  (forall v, In v (written (vars w) token) ->
             truthy v = true -> newline_free (printed v) = true) ->
  exists new,
    env_file (snd (refreshAccessToken w)) = Some new /\
    split_lines new
    = map (fun kv => printed (update (split_lines content) (fst kv) (snd kv)))
          (combine keys (written (vars w) token)).
Proof.
  intros Ha Hok Hj He Hv. unfold refreshAccessToken, fetch.
  rewrite Ha, Hok, Hj. cbn [negb json say env_file]. rewrite He.
  cbn [snd set_access_token writeFileSync env_file vars].
  eexists. split; [reflexivity|].
  unfold join_lines. rewrite split_concat; [reflexivity|discriminate|].
  cbn [map]. unfold written in Hv.
  repeat constructor;
    (apply update_newline_free; [reflexivity|]; apply Hv; cbn; tauto).
Qed.

(** [refreshAccessToken] posts one request, with the client id, the
    secret and the refresh token of the variables, and takes the endpoint's
    next answer. When the request fails, when the answer is not OK, when
    reading its body as JSON raises, or when the [.env] file cannot be read,
    the call does not return, and the variables and the file are as before.
    In the last case success has already been printed, although the new
    tokens are kept nowhere; when reading the body raises, nothing has been
    printed. *)
Theorem failed_refresh_changes_nothing :
  forall w : World,
    let completion := fst (refreshAccessToken w) in
    let w' := snd (refreshAccessToken w) in
    posted w'
    = posted w
      ++ [{| grant_type := "refresh_token";
             client_id := CTRADER_CLIENT_ID (vars w);
             client_secret := CTRADER_CLIENT_SECRET (vars w);
             posted_refresh_token := CTRADER_REFRESH_TOKEN (vars w) |}] /\
    authority w' = tl (authority w) /\
    (authority w = [] ->
     completion = Rejected /\ console w' = console w /\
     vars w' = vars w /\ env_file w' = env_file w) /\
    (forall res answers,
        authority w = res :: answers ->
        (ok res = false ->
         completion = Exited 1 /\
         console w'
         = console w ++ [Token_refresh_failed (status res) (text res)] /\
         vars w' = vars w /\ env_file w' = env_file w) /\
        (ok res = true -> json res = None ->
         completion = Rejected /\ console w' = console w /\
         vars w' = vars w /\ env_file w' = env_file w) /\
        (forall token,
            ok res = true -> json res = Some token -> env_file w = None ->
            completion = Rejected /\
            console w' = console w ++ [Token_refreshed_successfully] /\
            vars w' = vars w /\ env_file w' = None)).
Proof.
  intros w. unfold refreshAccessToken, fetch.
  destruct (authority w) as [|res answers] eqn:Ha.
  - cbn. repeat split; intros; discriminate.
  - split; [|split; [|split]].
    + destruct (ok res); [destruct (json res); [destruct (env_file w)|]|];
        reflexivity.
    + destruct (ok res); [destruct (json res); [destruct (env_file w)|]|];
        reflexivity.
    + discriminate.
    + intros res' answers' H. injection H as <- <-.
      split; [|split].
      * intros Hok. rewrite Hok. cbn. repeat split.
      * intros Hok Hj. rewrite Hok, Hj. cbn. repeat split.
      * intros token Hok Hj He. rewrite Hok, Hj. cbn. rewrite He. cbn.
        repeat split.
Qed.

Lemma failed_refresh_changes_nothing_witness :
  let w := {| vars := RefreshProperties.vars0; env_file := None;
              authority := [RefreshProperties.granted "A2" "R2"];
              posted := []; console := [] |} in
  fst (refreshAccessToken w) = Rejected /\
  console (snd (refreshAccessToken w)) = [Token_refreshed_successfully] /\
  vars (snd (refreshAccessToken w)) = RefreshProperties.vars0 /\
  env_file (snd (refreshAccessToken w)) = None.
Proof.
  intros w.
  destruct (failed_refresh_changes_nothing w) as (_ & _ & _ & Hcases).
  destruct (Hcases (RefreshProperties.granted "A2" "R2") [] eq_refl)
    as (_ & _ & Hlost).
  exact (Hlost {| access_token := Some "A2"%string;
                  refresh_token := Some "R2"%string |}
               eq_refl eq_refl eq_refl).
Defined.

(** After a refresh that returns, the [.env] file has exactly five lines,
    one for each key in the order client id, secret, access token, refresh
    token, account id: [key=value] for a value that is set, and for a value
    that is not set the first old line that starts with the key, or an empty
    line. Every other line of the old file is gone. *)
Theorem refresh_rewrites_five_lines :
  forall (w : World) (res : Response) (answers : list Response)
         (token : TokenData) (content : string),
    authority w = res :: answers ->
    ok res = true ->
    json res = Some token ->
    env_file w = Some content ->
    (forall v, In v (written (vars w) token) ->
               truthy v = true -> newline_free (printed v) = true) ->
    exists new,
      env_file (snd (refreshAccessToken w)) = Some new /\
      split_lines new
      = map (fun kv =>
               if truthy (snd kv)
               then (fst kv ++ "=" ++ printed (snd kv))%string
               else match find (fun l => prefix (fst kv) l)
                               (split_lines content) with
                    | Some l => l
                    | None => EmptyString
                    end)
            (combine keys (written (vars w) token)) /\
      Forall2 (fun k l => l = EmptyString \/ prefix k l = true)
              keys (split_lines new).
Proof.
  intros w res answers token content Ha Hok Hj He Hv.
  destruct (rewritten_lines w res answers token content Ha Hok Hj He Hv)
    as (new & Hnew & Hlines).
  exists new. split; [exact Hnew|]. rewrite Hlines. split.
  - apply map_ext. intros [k v]. unfold update. cbn [fst snd].
    destruct (truthy v); [reflexivity|]. now destruct (find _ _).
  - cbn [combine keys written map fst snd].
    repeat (constructor; [apply update_prefix|]). constructor.
Qed.

(** A [.env] file with a comment and a setting of its own. *)
Definition env_with_more : string :=
  join_lines [Some "# cTrader"%string;
              Some "CTRADER_CLIENT_ID=app"%string;
              Some "CTRADER_CLIENT_SECRET=secret"%string;
              Some "CTRADER_ACCESS_TOKEN=A1"%string;
              Some "CTRADER_REFRESH_TOKEN=R1"%string;
              Some "LOG_LEVEL=debug"%string].

Lemma refresh_rewrites_five_lines_witness :
  exists new,
    env_file (snd (refreshAccessToken
                     {| vars := RefreshProperties.vars0;
                        env_file := Some env_with_more;
                        authority := [RefreshProperties.granted "A2" "R2"];
                        posted := []; console := [] |}))
    = Some new /\
    split_lines new
    = ["CTRADER_CLIENT_ID=app"; "CTRADER_CLIENT_SECRET=secret";
       "CTRADER_ACCESS_TOKEN=A2"; "CTRADER_REFRESH_TOKEN=R2";
       "CTRADER_ACCOUNT_ID=42"]%string /\
    Forall2 (fun k l => l = EmptyString \/ prefix k l = true)
            keys (split_lines new).
Proof.
  apply (refresh_rewrites_five_lines
           {| vars := RefreshProperties.vars0;
              env_file := Some env_with_more;
              authority := [RefreshProperties.granted "A2" "R2"];
              posted := []; console := [] |}
           (RefreshProperties.granted "A2" "R2") []
           {| access_token := Some "A2"%string;
              refresh_token := Some "R2"%string |}
           env_with_more eq_refl eq_refl eq_refl eq_refl).
  intros v Hin _. cbn in Hin.
  repeat (destruct Hin as [<-|Hin]; [reflexivity|]). contradiction.
Defined.

(** An answer without a refresh token renews the access token only: the
    file then pairs the new access token with the refresh-token line it
    already had, word for word, and the access-token variable holds the new
    token. *)
Theorem grant_without_refresh_token_keeps_stored_line :
  forall (w : World) (res : Response) (answers : list Response)
         (token : TokenData) (content a l : string),
    authority w = res :: answers ->
    ok res = true ->
    json res = Some token ->
    env_file w = Some content ->
    access_token token = Some a ->
    a <> EmptyString ->
    truthy (refresh_token token) = false ->
    find (fun l => prefix "CTRADER_REFRESH_TOKEN" l) (split_lines content)
    = Some l ->
    (forall v, In v (written (vars w) token) ->
               truthy v = true -> newline_free (printed v) = true) ->
    exists new,
      env_file (snd (refreshAccessToken w)) = Some new /\
      nth_error (split_lines new) 2 = Some ("CTRADER_ACCESS_TOKEN=" ++ a)%string /\
      nth_error (split_lines new) 3 = Some l /\
      CTRADER_ACCESS_TOKEN (vars (snd (refreshAccessToken w))) = Some a.
Proof.
  intros w res answers token content a l Ha Hok Hj He Hacc Hne Hr Hl Hv.
  destruct (rewritten_lines w res answers token content Ha Hok Hj He Hv)
    as (new & Hnew & Hlines).
  exists new. split; [exact Hnew|]. rewrite Hlines.
  cbn [combine keys written map fst snd nth_error]. unfold update.
  rewrite Hr, Hl, Hacc. split; [|split].
  - destruct a; [contradiction|reflexivity].
  - reflexivity.
  - unfold refreshAccessToken, fetch. rewrite Ha, Hok, Hj. cbn. rewrite He.
    cbn. exact Hacc.
Qed.

Lemma grant_without_refresh_token_keeps_stored_line_witness :
  exists new,
    env_file (snd (refreshAccessToken
                     {| vars := RefreshProperties.vars0;
                        env_file := Some env_with_more;
                        authority :=
                          [{| ok := true; status := 200; text := EmptyString;
                              json := Some {| access_token := Some "A2"%string;
                                              refresh_token := None |} |}];
                        posted := []; console := [] |}))
    = Some new /\
    nth_error (split_lines new) 2 = Some "CTRADER_ACCESS_TOKEN=A2"%string /\
    nth_error (split_lines new) 3 = Some "CTRADER_REFRESH_TOKEN=R1"%string /\
    CTRADER_ACCESS_TOKEN
      (vars (snd (refreshAccessToken
                    {| vars := RefreshProperties.vars0;
                       env_file := Some env_with_more;
                       authority :=
                         [{| ok := true; status := 200; text := EmptyString;
                             json := Some {| access_token := Some "A2"%string;
                                             refresh_token := None |} |}];
                       posted := []; console := [] |})))
    = Some "A2"%string.
Proof.
  apply (grant_without_refresh_token_keeps_stored_line
           {| vars := RefreshProperties.vars0;
              env_file := Some env_with_more;
              authority :=
                [{| ok := true; status := 200; text := EmptyString;
                    json := Some {| access_token := Some "A2"%string;
                                    refresh_token := None |} |}];
              posted := []; console := [] |}
           _ [] _ env_with_more "A2" "CTRADER_REFRESH_TOKEN=R1"
           eq_refl eq_refl eq_refl eq_refl eq_refl).
  - discriminate.
  - reflexivity.
  - reflexivity.
  - intros v Hin Ht. cbn in Hin.
    repeat (destruct Hin as [<-|Hin]; [reflexivity || discriminate|]).
    contradiction.
Defined.

End EnvFile.


(** ** The symbol list on disk *)

Module SymbolsCsv.
Import Refresh EnvFile.

(** A number as a template literal prints it. *)
Definition decimal (n : N) : string :=
  NilEmpty.string_of_uint (N.to_uint n).

(** [`${s.symbolId},${s.symbolName}`] *)
Definition csv_row (s : Symbol) : string :=
  (decimal (symbolId s) ++ "," ++ symbolName s)%string.

(** The text the [symbols_list] callback writes to [symbols.csv], which
    [Wrote_symbols_csv all] stands for in the trace:
    ['symbolId,symbolName\n' + all.map(...).join('\n')]. *)
Definition symbols_csv (all : list Symbol) : string :=
  (("symbolId,symbolName" ++ newline)
   ++ String.concat newline (map csv_row all))%string.

Lemma digits_newline_free d :
  newline_free (NilEmpty.string_of_uint d) = true.
Proof. induction d; cbn; trivial. Qed.

Lemma csv_row_newline_free s :
  newline_free (symbolName s) = true -> newline_free (csv_row s) = true.
Proof.
  intros H. unfold csv_row, decimal.
  now rewrite !newline_free_app, digits_newline_free, H.
Qed.

(** [symbols.csv] is the heading and then one line for each symbol
    received, in the order received, each the identifier in decimal, a comma
    and the name as it is, without quoting; for an empty symbol list the
    heading is followed by one empty line. *)
Theorem symbols_csv_lines :
  forall all : list Symbol,
    Forall (fun s => newline_free (symbolName s) = true) all ->
    split_lines (symbols_csv all)
    = "symbolId,symbolName"%string
      :: match all with
         | [] => [EmptyString]
         | _ :: _ => map csv_row all
         end.
Proof.
  intros all Hall. unfold symbols_csv.
  change (("symbolId,symbolName" ++ newline)
          ++ String.concat newline (map csv_row all))%string
    with ("symbolId,symbolName" ++ newline
          ++ String.concat newline (map csv_row all))%string.
  rewrite (split_lines_app "symbolId,symbolName") by reflexivity.
  f_equal. destruct all as [|s all]; [reflexivity|].
  apply split_concat; [discriminate|].
  apply Forall_map. revert Hall. apply Forall_impl.
  intros s'. apply csv_row_newline_free.
Qed.

Lemma symbols_csv_lines_witness :
  split_lines (symbols_csv [ {| symbolId := 1; symbolName := "EURUSD" |};
                             {| symbolId := 41; symbolName := "XAU,USD" |} ])
  = ["symbolId,symbolName"; "1,EURUSD"; "41,XAU,USD"]%string.
Proof.
  apply (symbols_csv_lines [ {| symbolId := 1; symbolName := "EURUSD" |};
                             {| symbolId := 41; symbolName := "XAU,USD" |} ]).
  repeat constructor.
Defined.

End SymbolsCsv.
